(** * pvAccessCPP: UDP transport framing, response dispatch, beacon cadence
      and the transport registry.

    A shallow embedding of
    - [src/pvAccessApp/remote/blockingUDPTransport.cpp],
    - [src/pvAccessApp/server/responseHandlers.cpp],
    - [src/pvAccessApp/server/beaconEmitter.cpp] (with transportRegistry.cpp),
    together with the properties stated about them. *)

From stdpp Require Import base tactics option numbers list sorting strings gmap.
From Stdlib Require Import ZArith Lia QArith Qcanon.

Local Open Scope Z_scope.

(** ** Fixed-width integers

    C++ values are carried as [Z]; every conversion the source performs is
    written out.  [int8], [int16] and [int32] are two's complement; [size_t]
    is the unsigned 64-bit word of an LP64 target. *)

Definition wrap_signed (bits : Z) (x : Z) : Z :=
  let m := x mod 2 ^ bits in
  if m <? 2 ^ (bits - 1) then m else m - 2 ^ bits.

Definition to_int8 (x : Z) : Z := wrap_signed 8 x.
Definition to_int16 (x : Z) : Z := wrap_signed 16 x.
Definition to_int32 (x : Z) : Z := wrap_signed 32 x.
Definition to_size_t (x : Z) : Z := x mod 2 ^ 64.

Definition is_int8 (x : Z) : Prop := -128 <= x <= 127.
Definition is_int32 (x : Z) : Prop := -2147483648 <= x <= 2147483647.

(** ** Byte order of multi-byte values *)

Fixpoint le_bytes (n : nat) (v : Z) : list Z :=
  match n with
  | O => []
  | S k => v mod 256 :: le_bytes k (v / 256)
  end.

Fixpoint le_value (bs : list Z) : Z :=
  match bs with
  | [] => 0
  | b :: r => b + 256 * le_value r
  end.

(** [big = true] is EPICS_ENDIAN_BIG. *)
Definition enc (big : bool) (n : nat) (v : Z) : list Z :=
  if big then reverse (le_bytes n v) else le_bytes n v.

Definition dec (big : bool) (bs : list Z) : Z :=
  le_value (if big then reverse bs else bs).

(** The [n] bytes of [l] that start at index [i]. *)
Definition slice (l : list Z) (i : Z) (n : nat) : list Z :=
  take n (drop (Z.to_nat i) l).

(** ** epics::pvData::ByteBuffer

    The buffer class of pvData, as the transport uses it: a byte array of
    fixed capacity, a cursor, a limit and the byte order used by the
    multi-byte accessors.  Accesses outside the array are undefined in the
    source; here a read sees only the bytes that exist and a write outside
    the array is dropped. *)
Module ByteBuffer.

Record t : Type := mk {
  arr : list Z;          (* bytes, each in 0..255; length = capacity *)
  position : Z;
  limit : Z;
  bigEndian : bool
}.

Definition create (size : Z) (big : bool) : t :=
  mk (replicate (Z.to_nat size) 0) 0 size big.

Definition capacity (b : t) : Z := Z.of_nat (length (arr b)).

Definition getPosition (b : t) : Z := position b.
Definition getLimit (b : t) : Z := limit b.
Definition getRemaining (b : t) : Z := limit b - position b.
Definition getArray (b : t) : list Z := arr b.

Definition setPosition (b : t) (p : Z) : t :=
  mk (arr b) p (limit b) (bigEndian b).

Definition setEndianess (b : t) (big : bool) : t :=
  mk (arr b) (position b) (limit b) big.

Definition setArray (b : t) (a : list Z) : t :=
  mk a (position b) (limit b) (bigEndian b).

(* position = 0, limit = capacity *)
Definition clear (b : t) : t :=
  mk (arr b) 0 (capacity b) (bigEndian b).

(* limit = position, position = 0 *)
Definition flip (b : t) : t :=
  mk (arr b) 0 (position b) (bigEndian b).

(** Relative read of an [n]-byte unsigned value in the buffer's order. *)
Definition get (n : nat) (b : t) : Z * t :=
  (dec (bigEndian b) (slice (arr b) (position b) n),
   setPosition b (position b + Z.of_nat n)).

(** Absolute write of the low [n] bytes of [v] at [idx]. *)
Definition putAt (n : nat) (idx : Z) (v : Z) (b : t) : t :=
  setArray b (list_inserts (Z.to_nat idx) (enc (bigEndian b) n v) (arr b)).

(** Relative write of the low [n] bytes of [v]. *)
Definition put (n : nat) (v : Z) (b : t) : t :=
  setPosition (putAt n (position b) v b) (position b + Z.of_nat n).

Definition getByte (b : t) : Z * t :=
  let '(u, b') := get 1 b in (to_int8 u, b').
Definition getShort (b : t) : Z * t :=
  let '(u, b') := get 2 b in (to_int16 u, b').
Definition getInt (b : t) : Z * t :=
  let '(u, b') := get 4 b in (to_int32 u, b').

Definition putByte (v : Z) (b : t) : t := put 1 v b.
Definition putShort (v : Z) (b : t) : t := put 2 v b.
Definition putInt (v : Z) (b : t) : t := put 4 v b.
Definition putLong (v : Z) (b : t) : t := put 8 v b.
(* putInt(int index, int32 value) *)
Definition putIntAt (idx : Z) (v : Z) (b : t) : t := putAt 4 idx v b.

End ByteBuffer.

Abbreviation ByteBuffer := ByteBuffer.t.

(** ** Sequences of relative writes into a buffer *)

Inductive PutOp : Type :=
  | PutByte (v : Z) | PutShort (v : Z) | PutInt (v : Z) | PutLong (v : Z).

Definition put_size (o : PutOp) : nat :=
  match o with PutByte _ => 1 | PutShort _ => 2 | PutInt _ => 4 | PutLong _ => 8 end.

Definition put_value (o : PutOp) : Z :=
  match o with PutByte v | PutShort v | PutInt v | PutLong v => v end.

Definition apply_put (b : ByteBuffer.t) (o : PutOp) : ByteBuffer :=
  match o with
  | PutByte v => ByteBuffer.putByte v b
  | PutShort v => ByteBuffer.putShort v b
  | PutInt v => ByteBuffer.putInt v b
  | PutLong v => ByteBuffer.putLong v b
  end.

(** The bytes a sequence of writes leaves in a buffer of byte order [big]. *)
Definition written (big : bool) (ops : list PutOp) : list Z :=
  concat ((λ o, enc big (put_size o) (put_value o)) <$> ops).


(** ** Socket addresses, logging, and what the operating system returns *)

(** [osiSockAddr], read through its [ia] member ([sockaddr_in]). *)
Record osiSockAddr : Type := mkAddr {
  sin_family : Z;
  sin_port : Z;
  sin_addr : Z             (* ia.sin_addr.s_addr, 32 bits *)
}.

Inductive errlogSevEnum : Type :=
  errlogInfo | errlogMinor | errlogMajor | errlogFatal.

Inductive logLevel : Type := logLevelDebug | logLevelError.

(** What the code prints, in order. *)
Inductive LogEntry : Type :=
  | ErrlogSevPrintf (sev : errlogSevEnum) (format : string)
                    (command : Z) (from : option osiSockAddr)
  | LOG (level : logLevel) (format : string)
  | HexDump (name : string) (offset : Z) (len : Z).

Inductive SockErr : Type :=
  | SOCK_EINTR | SOCK_EAGAIN | SOCK_ETIMEDOUT | SOCK_EWOULDBLOCK
  | SOCK_ECONNREFUSED | SOCK_ECONNRESET | SOCK_EOTHER (code : Z).

(** One return of [recvfrom]: the count, the source address and (for a
    positive count) the datagram's bytes; SOCKERRNO for a count of -1. *)
Record RecvFrom : Type := mkRecv {
  bytesRead : Z;
  fromAddress : osiSockAddr;
  data : list Z;
  socketError : SockErr
}.

(** ** BlockingUDPTransport: the object and its effects

    The fields of the class that the functions under study touch, the
    three peer parameters of the [Transport] interface, and two effect
    logs: [wire] holds the [sendto] calls made on the socket (oldest first)
    and [errlog] what was logged. *)
Record BlockingUDPTransport : Type := mkUDP {
  closed : bool;
  sendAddresses : option (list osiSockAddr);
  ignoredAddresses : option (list osiSockAddr);
  sendTo : osiSockAddr;
  sendToEnabled : bool;
  receiveBuffer : ByteBuffer;
  sendBuffer : ByteBuffer;
  lastMessageStartPosition : Z;
  remoteTransportReceiveBufferSize : Z;
  remoteTransportSocketReceiveBufferSize : Z;
  remoteMinorRevision : Z;
  wire : list (osiSockAddr * list Z);
  errlog : list LogEntry
}.

Definition with_closed (v : bool) (t : BlockingUDPTransport) :=
  mkUDP v (sendAddresses t) (ignoredAddresses t) (sendTo t) (sendToEnabled t)
    (receiveBuffer t) (sendBuffer t) (lastMessageStartPosition t)
    (remoteTransportReceiveBufferSize t)
    (remoteTransportSocketReceiveBufferSize t) (remoteMinorRevision t)
    (wire t) (errlog t).

Definition with_sendTo (a : osiSockAddr) (en : bool) (t : BlockingUDPTransport) :=
  mkUDP (closed t) (sendAddresses t) (ignoredAddresses t) a en
    (receiveBuffer t) (sendBuffer t) (lastMessageStartPosition t)
    (remoteTransportReceiveBufferSize t)
    (remoteTransportSocketReceiveBufferSize t) (remoteMinorRevision t)
    (wire t) (errlog t).

Definition with_receiveBuffer (b : ByteBuffer) (t : BlockingUDPTransport) :=
  mkUDP (closed t) (sendAddresses t) (ignoredAddresses t) (sendTo t)
    (sendToEnabled t) b (sendBuffer t) (lastMessageStartPosition t)
    (remoteTransportReceiveBufferSize t)
    (remoteTransportSocketReceiveBufferSize t) (remoteMinorRevision t)
    (wire t) (errlog t).

Definition with_sendBuffer (b : ByteBuffer) (t : BlockingUDPTransport) :=
  mkUDP (closed t) (sendAddresses t) (ignoredAddresses t) (sendTo t)
    (sendToEnabled t) (receiveBuffer t) b (lastMessageStartPosition t)
    (remoteTransportReceiveBufferSize t)
    (remoteTransportSocketReceiveBufferSize t) (remoteMinorRevision t)
    (wire t) (errlog t).

Definition with_lastMessageStartPosition (p : Z) (t : BlockingUDPTransport) :=
  mkUDP (closed t) (sendAddresses t) (ignoredAddresses t) (sendTo t)
    (sendToEnabled t) (receiveBuffer t) (sendBuffer t) p
    (remoteTransportReceiveBufferSize t)
    (remoteTransportSocketReceiveBufferSize t) (remoteMinorRevision t)
    (wire t) (errlog t).

Definition with_wire (w : list (osiSockAddr * list Z)) (t : BlockingUDPTransport) :=
  mkUDP (closed t) (sendAddresses t) (ignoredAddresses t) (sendTo t)
    (sendToEnabled t) (receiveBuffer t) (sendBuffer t)
    (lastMessageStartPosition t) (remoteTransportReceiveBufferSize t)
    (remoteTransportSocketReceiveBufferSize t) (remoteMinorRevision t)
    w (errlog t).

Definition with_errlog (l : list LogEntry) (t : BlockingUDPTransport) :=
  mkUDP (closed t) (sendAddresses t) (ignoredAddresses t) (sendTo t)
    (sendToEnabled t) (receiveBuffer t) (sendBuffer t)
    (lastMessageStartPosition t) (remoteTransportReceiveBufferSize t)
    (remoteTransportSocketReceiveBufferSize t) (remoteMinorRevision t)
    (wire t) l.

Definition log (e : LogEntry) (t : BlockingUDPTransport) : BlockingUDPTransport :=
  with_errlog (errlog t ++ [e]) t.

(** Modelled from the spec: the setters of the [Transport] interface
    (declared in remote.h, which is not part of the sources at hand) store
    the peer's receive-buffer size, socket receive-buffer size and minor
    revision in the transport. *)
Definition setRemoteTransportReceiveBufferSize (v : Z) (t : BlockingUDPTransport) :=
  mkUDP (closed t) (sendAddresses t) (ignoredAddresses t) (sendTo t)
    (sendToEnabled t) (receiveBuffer t) (sendBuffer t)
    (lastMessageStartPosition t) v
    (remoteTransportSocketReceiveBufferSize t) (remoteMinorRevision t)
    (wire t) (errlog t).

Definition setRemoteTransportSocketReceiveBufferSize (v : Z) (t : BlockingUDPTransport) :=
  mkUDP (closed t) (sendAddresses t) (ignoredAddresses t) (sendTo t)
    (sendToEnabled t) (receiveBuffer t) (sendBuffer t)
    (lastMessageStartPosition t) (remoteTransportReceiveBufferSize t)
    v (remoteMinorRevision t) (wire t) (errlog t).

Definition setRemoteMinorRevision (v : Z) (t : BlockingUDPTransport) :=
  mkUDP (closed t) (sendAddresses t) (ignoredAddresses t) (sendTo t)
    (sendToEnabled t) (receiveBuffer t) (sendBuffer t)
    (lastMessageStartPosition t) (remoteTransportReceiveBufferSize t)
    (remoteTransportSocketReceiveBufferSize t) v (wire t) (errlog t).

(** A call into code that may throw: the state it leaves either way. *)
Inductive Outcome : Type :=
  | Ok (t : BlockingUDPTransport)
  | Thrown (t : BlockingUDPTransport).

Definition outcome_state (o : Outcome) : BlockingUDPTransport :=
  match o with Ok t => t | Thrown t => t end.

(** [ResponseHandler::handleResponse(responseFrom, transport, version,
    command, payloadSize, payloadBuffer)].  The payload buffer handed over by
    the transport is the transport's own receive buffer, so a handler is a
    transformer of the one transport state. *)
Definition ResponseHandler : Type :=
  osiSockAddr -> Z -> Z -> Z -> BlockingUDPTransport -> Outcome.

(** [TransportSender::send(buffer, control)]: the buffer is the transport's
    send buffer and the control is the transport. *)
Definition TransportSender : Type := BlockingUDPTransport -> Outcome.

(** ** Protocol constants (caConstants.h) *)

(** Modelled from the spec: the magic constant 0xCA, held in an [int8]. *)
Definition CA_MAGIC : Z := Eval cbv in to_int8 202.
(** Modelled from the spec: the header is 8 bytes. *)
Definition CA_MESSAGE_HEADER_SIZE : Z := 8.
(** Modelled from the spec: command 2 is echo. *)
Definition CMD_ECHO : Z := 2.
(** Modelled from the spec: the dispatcher table has 28 slots. *)
Definition HANDLER_TABLE_LENGTH : Z := 28.

(** One call of the response handler made by [processBuffer]: its
    arguments, with the payload buffer as it was handed over (cursor just
    past the frame's header). *)
Record Call : Type := mkCall {
  c_from : osiSockAddr;
  c_version : Z;
  c_command : Z;
  c_payloadSize : Z;
  c_buffer : ByteBuffer
}.

(** How a run of [processBuffer] ends: it returns, an exception of the
    handler leaves it, or the fuel given to the model ran out. *)
Inductive Exit : Type :=
  | Returned (ok : bool)
  | Raised
  | Unfinished.

Inductive LoopCtl : Type := Continue | Break | Stuck.

(** The loop of [processRead] that looks for the source among the ignored
    addresses (blockingUDPTransport.cpp, lines 188-195). *)
Fixpoint ignoreScan (l : list osiSockAddr) (from : osiSockAddr) : bool :=
  match l with
  | [] => false
  | a :: r => if sin_addr a =? sin_addr from then true else ignoreScan r from
  end.

Section Transport.

(** caConstants.h: the protocol version byte. *)
Variable CA_VERSION : Z.
(** [EPICS_BYTE_ORDER == EPICS_ENDIAN_BIG] on the host. *)
Variable EPICS_BYTE_ORDER_BIG : bool.
(** What the socket's [sendto] returns for a destination and a datagram. *)
Variable sendto : osiSockAddr -> list Z -> Z.
(** The [_debug] flag the handlers take from the server context. *)
Variable debug : bool.

Import ByteBuffer.

(** *** blockingUDPTransport.cpp: the send path *)

Definition startMessage (command : Z) (ensureCapacity : Z)
    (t : BlockingUDPTransport) : BlockingUDPTransport :=
  let t1 := with_lastMessageStartPosition (getPosition (sendBuffer t)) t in
  let b1 := putByte CA_MAGIC (sendBuffer t1) in
  let b2 := putByte CA_VERSION b1 in
  let b3 := putByte (if EPICS_BYTE_ORDER_BIG then 128 else 0) b2 in
  let b4 := putByte command b3 in
  let b5 := putInt 0 b4 in
  with_sendBuffer b5 t1.

Definition endMessage (t : BlockingUDPTransport) : BlockingUDPTransport :=
  with_sendBuffer
    (putIntAt (lastMessageStartPosition t + (2 + 2))
       (getPosition (sendBuffer t) - lastMessageStartPosition t
        - CA_MESSAGE_HEADER_SIZE)
       (sendBuffer t)) t.

(** Modelled from the spec: [setRecipient(addr)] (declared in
    blockingUDP.h) switches the pending send from broadcast to unicast. *)
Definition setRecipient (sendTo : osiSockAddr) (t : BlockingUDPTransport) :=
  with_sendTo sendTo true t.

(** One [sendto] on the socket. *)
Definition sendto_call (address : osiSockAddr) (b : ByteBuffer)
    (t : BlockingUDPTransport) : bool * BlockingUDPTransport :=
  let dgram := take (Z.to_nat (getLimit b)) (getArray b) in
  let t1 := with_wire (wire t ++ [(address, dgram)]) t in
  if sendto address dgram <? 0
  then (false, log (LOG logLevelDebug "Socket sendto error: %s") t1)
  else (true, t1).

(* send(ByteBuffer* buffer, const osiSockAddr& address) *)
Definition send_to (address : osiSockAddr) (t : BlockingUDPTransport)
    : bool * BlockingUDPTransport :=
  let b := flip (sendBuffer t) in
  sendto_call address b (with_sendBuffer b t).

(* send(ByteBuffer* buffer) *)
Definition send (t : BlockingUDPTransport) : bool * BlockingUDPTransport :=
  match sendAddresses t with
  | None => (false, t)
  | Some addrs =>
      let b := flip (sendBuffer t) in
      foldl (fun acc a =>
               let '(ok, t') := sendto_call a b (snd acc) in
               (fst acc && ok, t'))
            (true, with_sendBuffer b t) addrs
  end.

(** [sender->lock()] and [sender->unlock()] do not touch the transport;
    an exception of the sender is swallowed by the catch-all. *)
Definition enqueueSendRequest (sender : TransportSender)
    (t : BlockingUDPTransport) : BlockingUDPTransport :=
  let t1 := with_sendTo (sendTo t) false t in
  let t2 := with_sendBuffer (clear (sendBuffer t1)) t1 in
  match sender t2 with
  | Ok t3 =>
      let t4 := endMessage t3 in
      if negb (sendToEnabled t4) then snd (send t4)
      else snd (send_to (sendTo t4) t4)
  | Thrown t3 => t3
  end.

(* close(forced, waitForThreadToComplete = false) *)
Definition close_nowait (t : BlockingUDPTransport) : BlockingUDPTransport :=
  if closed t then t
  else log (LOG logLevelDebug "UDP socket %s closed.") (with_closed true t).

(** *** responseHandlers.cpp *)

Definition AbstractResponseHandler_handleResponse
    (responseFrom : osiSockAddr) (version command payloadSize : Z)
    (t : BlockingUDPTransport) : BlockingUDPTransport :=
  if debug
  then log (HexDump "Message received" (getPosition (receiveBuffer t)) payloadSize) t
  else t.

Definition BadResponse_handleResponse : ResponseHandler :=
  fun responseFrom version command payloadSize t =>
    let t1 := AbstractResponseHandler_handleResponse
                responseFrom version command payloadSize t in
    Ok (log (ErrlogSevPrintf errlogInfo
               "Undecipherable message (bad response type %d) from %s."
               command (Some responseFrom)) t1).

(** Modelled from the spec: [NoopResponse] (declared in
    responseHandlers.h) ignores the frame; like every handler it starts
    with the debug dump of its base class. *)
Definition NoopResponse_handleResponse (description : string) : ResponseHandler :=
  fun responseFrom version command payloadSize t =>
    Ok (AbstractResponseHandler_handleResponse
          responseFrom version command payloadSize t).

(** Modelled from the spec: [Transport::ensureData(size)] requires [size]
    bytes to be available in the receive buffer and raises a framing
    error when they are not. *)
Definition ensureData (size : Z) (t : BlockingUDPTransport) : Outcome :=
  if getRemaining (receiveBuffer t) <? size then Thrown t else Ok t.

Definition ConnectionValidationHandler_handleResponse : ResponseHandler :=
  fun responseFrom version command payloadSize t =>
    let t1 := AbstractResponseHandler_handleResponse
                responseFrom version command payloadSize t in
    match ensureData (2 * 4 + 2) t1 with
    | Thrown t2 => Thrown t2
    | Ok t2 =>
        let '(r, b1) := getInt (receiveBuffer t2) in
        let t3 := setRemoteTransportReceiveBufferSize r
                    (with_receiveBuffer b1 t2) in
        let '(s, b2) := getInt (receiveBuffer t3) in
        let t4 := setRemoteTransportSocketReceiveBufferSize s
                    (with_receiveBuffer b2 t3) in
        Ok (setRemoteMinorRevision version t4)
    end.

Definition EchoTransportSender_send (echoFrom : osiSockAddr) : TransportSender :=
  fun t => Ok (setRecipient echoFrom (startMessage CMD_ECHO 0 t)).

Definition EchoHandler_handleResponse : ResponseHandler :=
  fun responseFrom version command payloadSize t =>
    let t1 := AbstractResponseHandler_handleResponse
                responseFrom version command payloadSize t in
    Ok (enqueueSendRequest (EchoTransportSender_send responseFrom) t1).

(** The table built by the constructor of [ServerResponseHandler]. *)
Definition handlerTable : list ResponseHandler :=
  [ NoopResponse_handleResponse "Beacon";
    ConnectionValidationHandler_handleResponse;
    EchoHandler_handleResponse ]
  ++ replicate 25 BadResponse_handleResponse.

(** [ServerResponseHandler::handleResponse], over the table it holds.
    An index outside the table cannot be reached past the guard. *)
Definition ServerResponseHandler_handleResponse
    (table : list ResponseHandler) : ResponseHandler :=
  fun responseFrom version command payloadSize t =>
    if (command <? 0) || (command >=? HANDLER_TABLE_LENGTH) then
      let t1 := log (ErrlogSevPrintf errlogMinor
                       "Invalid (or unsupported) command: %d."
                       command None) t in
      Ok (log (HexDump "Invalid CA header + , its payload buffer"
                 (getPosition (receiveBuffer t1)) payloadSize) t1)
    else
      match table !! Z.to_nat command with
      | Some handler =>
          handler responseFrom version command payloadSize t
      | None => Thrown t
      end.

(** *** blockingUDPTransport.cpp: the receive path *)

Section Receive.

(** [_responseHandler]: any response handler. *)
Variable responseHandler : ResponseHandler.

Fixpoint processBuffer (fuel : nat) (fromAddress : osiSockAddr)
    (t : BlockingUDPTransport) : Exit * BlockingUDPTransport * list Call :=
  match fuel with
  | O => (Unfinished, t, [])
  | S fuel' =>
    if to_int32 (getRemaining (receiveBuffer t)) >=? CA_MESSAGE_HEADER_SIZE
    then
      let '(magic, b1) := getByte (receiveBuffer t) in
      let '(version, b2) := getByte b1 in
      if negb (magic =? CA_MAGIC)
      then (Returned false, with_receiveBuffer b2 t, [])
      else
        let '(flags, b3) := getByte b2 in
        let b4 := setEndianess b3 (flags <? 0) in
        let '(command, b5) := getByte b4 in
        let '(size32, b6) := getInt b5 in
        let payloadSize := to_size_t size32 in
        let nextRequestPosition := to_size_t (getPosition b6 + payloadSize) in
        if nextRequestPosition >? getLimit b6
        then (Returned false, with_receiveBuffer b6 t, [])
        else
          let c := mkCall fromAddress version command (to_int32 payloadSize) b6 in
          match responseHandler fromAddress version command
                  (to_int32 payloadSize) (with_receiveBuffer b6 t) with
          | Thrown t' => (Raised, t', [c])
          | Ok t' =>
              let t'' := with_receiveBuffer
                           (setPosition (receiveBuffer t') nextRequestPosition) t' in
              let '(e, tf, cs) := processBuffer fuel' fromAddress t'' in
              (e, tf, c :: cs)
          end
    else (Returned true, t, [])
  end.

Definition isIgnored (fromAddress : osiSockAddr) (t : BlockingUDPTransport) : bool :=
  match ignoredAddresses t with
  | None => false
  | Some l => ignoreScan l fromAddress
  end.

(** One turn of the loop of [processRead], for one return of
    [recvfrom] into the cleared receive buffer. *)
Definition processRead_iteration (fuel : nat) (r : RecvFrom)
    (t : BlockingUDPTransport) : LoopCtl * BlockingUDPTransport * list Call :=
  let rb := clear (receiveBuffer t) in
  if bytesRead r >? 0 then
    let rb1 := setArray rb (list_inserts 0 (data r) (arr rb)) in
    let t1 := with_receiveBuffer rb1 t in
    if isIgnored (fromAddress r) t1 then (Continue, t1, [])
    else
      let rb2 := flip (setPosition rb1 (bytesRead r)) in
      let '(e, t2, cs) :=
        processBuffer fuel (fromAddress r) (with_receiveBuffer rb2 t1) in
      match e with
      | Returned _ => (Continue, t2, cs)
      | Raised => (Break, close_nowait t2, cs)
      | Unfinished => (Stuck, t2, cs)
      end
  else
    let t1 := with_receiveBuffer rb t in
    if bytesRead r =? -1 then
      match socketError r with
      | SOCK_EOTHER _ =>
          let t2 := if closed t1 then t1
                    else log (LOG logLevelError "Socket recvfrom error: %s") t1 in
          (Break, close_nowait t2, [])
      | _ => (Continue, t1, [])
      end
    else (Continue, t1, []).

End Receive.

End Transport.

(** *** blockingUDPTransport.cpp: closing, and the receive thread as a whole *)

(** [close(forced, waitForThreadToComplete)] (lines 97-123).  [signalled]
    is what [_shutdownEvent.wait(5.0)] returns when the call gets that far.
    The socket is destroyed where the closing is logged.  [close(forced)]
    is [close(forced, true)]. *)
Definition close (forced waitForThreadToComplete : bool) (signalled : bool)
    (t : BlockingUDPTransport) : BlockingUDPTransport :=
  if closed t then t
  else
    let t1 := log (LOG logLevelDebug "UDP socket %s closed.") (with_closed true t) in
    if waitForThreadToComplete then
      if negb signalled
      then log (LOG logLevelError
                  "Receive thread for UDP socket %s has not exited.") t1
      else t1
    else t1.

(** Where the receive thread stands when the given returns of [recvfrom]
    are used up. *)
Inductive ThreadState : Type :=
  | ThreadExited      (* processRead has left its loop *)
  | InRecvfrom        (* the loop waits for the next return of recvfrom *)
  | InProcessBuffer.  (* processBuffer has not returned within the fuel *)

(** The transport with its receive buffer cleared for the next
    [recvfrom] (line 175). *)
Definition listening (t : BlockingUDPTransport) : BlockingUDPTransport :=
  with_receiveBuffer (ByteBuffer.clear (receiveBuffer t)) t.

Section ReceiveThread.

Variable responseHandler : ResponseHandler.

(** The loop of [processRead] (lines 170-234), fed with the returns of
    [recvfrom] in order; when they are used up the thread is left in
    [recvfrom], with the buffer cleared for it. *)
Fixpoint processRead_loop (fuel : nat) (rs : list RecvFrom)
    (t : BlockingUDPTransport) : ThreadState * BlockingUDPTransport * list Call :=
  if closed t then (ThreadExited, t, [])
  else
    match rs with
    | [] => (InRecvfrom, listening t, [])
    | r :: rs' =>
        let '(ctl, t1, cs) := processRead_iteration responseHandler fuel r t in
        match ctl with
        | Continue =>
            let '(s, t2, cs') := processRead_loop fuel rs' t1 in
            (s, t2, cs ++ cs')
        | Break => (ThreadExited, t1, cs)
        | Stuck => (InProcessBuffer, t1, cs)
        end
    end.

(** [processRead] (lines 161-248): the loop, after which the thread logs
    its exit and signals [_shutdownEvent]. *)
Definition processRead (fuel : nat) (rs : list RecvFrom)
    (t : BlockingUDPTransport) : ThreadState * BlockingUDPTransport * list Call :=
  let '(s, t1, cs) := processRead_loop fuel rs t in
  match s with
  | ThreadExited => (s, log (LOG logLevelDebug "Thread '%s' exiting") t1, cs)
  | _ => (s, t1, cs)
  end.

End ReceiveThread.

(** ** Vocabulary of the statements *)

Section Vocabulary.

Import ByteBuffer.

Definition writePayload (ops : list PutOp) (t : BlockingUDPTransport)
    : BlockingUDPTransport :=
  with_sendBuffer (foldl apply_put (sendBuffer t) ops) t.

(** A frame on the wire: header fields as the [int8] values the decoder
    yields, and the payload bytes. *)
Record Frame : Type := mkFrame {
  f_version : Z;
  f_flags : Z;
  f_command : Z;
  f_payload : list Z
}.

Definition frame_bytes (f : Frame) : list Z :=
  [202; f_version f mod 256; f_flags f mod 256; f_command f mod 256]
  ++ enc (f_flags f <? 0) 4 (Z.of_nat (length (f_payload f)))
  ++ f_payload f.

Definition datagram (fs : list Frame) : list Z := concat (frame_bytes <$> fs).

Definition valid_frame (f : Frame) : Prop :=
  is_int8 (f_version f) ∧ is_int8 (f_flags f) ∧ is_int8 (f_command f).

(** The handler calls a datagram of frames starting at [start] should
    lead to: one per frame, in order, each with the cursor just past that
    frame's header. *)
Fixpoint frame_calls (from : osiSockAddr) (a : list Z) (lim : Z)
    (start : Z) (fs : list Frame) : list Call :=
  match fs with
  | [] => []
  | f :: r =>
      mkCall from (f_version f) (f_command f) (Z.of_nat (length (f_payload f)))
        (mk a (start + 8) lim (f_flags f <? 0))
      :: frame_calls from a lim (start + 8 + Z.of_nat (length (f_payload f))) r
  end.

(** The frames of a datagram handled in turn, as the specification
    describes it, for a buffer whose cursor is at the start of the first
    frame: each frame is handed to the handler with the cursor just past
    its header, and once the handler has returned the cursor is put just
    past the frame's payload, wherever the handler has left it.  A handler
    that throws ends the run. *)
Fixpoint frames_in_turn (h : ResponseHandler) (from : osiSockAddr)
    (fs : list Frame) (t : BlockingUDPTransport)
    : Exit * BlockingUDPTransport * list Call :=
  match fs with
  | [] => (Returned true, t, [])
  | f :: r =>
      let rb := receiveBuffer t in
      let payloadSize := Z.of_nat (length (f_payload f)) in
      let headerEnd := position rb + 8 in
      let b := mk (arr rb) headerEnd (limit rb) (f_flags f <? 0) in
      let c := mkCall from (f_version f) (f_command f) payloadSize b in
      match h from (f_version f) (f_command f) payloadSize
              (with_receiveBuffer b t) with
      | Thrown t' => (Raised, t', [c])
      | Ok t' =>
          let '(e, tf, cs) :=
            frames_in_turn h from r
              (with_receiveBuffer
                 (setPosition (receiveBuffer t') (headerEnd + payloadSize)) t') in
          (e, tf, c :: cs)
      end
  end.

(** Handlers that return, and leave the bytes and the limit of the
    receive buffer as they are; the cursor and the byte order are theirs
    to change. *)
Definition reads_only (h : ResponseHandler) : Prop :=
  ∀ from v c n t, ∃ t', h from v c n t = Ok t'
    ∧ arr (receiveBuffer t') = arr (receiveBuffer t)
    ∧ limit (receiveBuffer t') = limit (receiveBuffer t).

(** The frame [startMessage], the payload writes and [endMessage] leave
    in the send buffer. *)
Definition sent_frame (CA_VERSION : Z) (big : bool) (command : Z)
    (ops : list PutOp) : Frame :=
  mkFrame (to_int8 CA_VERSION) (if big then -128 else 0) command (written big ops).

(** Handlers that, when they return, have left the bytes and the limit
    of the receive buffer as they are. *)
Definition keeps_bytes (h : ResponseHandler) : Prop :=
  ∀ from v c n t t', h from v c n t = Ok t' →
    arr (receiveBuffer t') = arr (receiveBuffer t)
    ∧ limit (receiveBuffer t') = limit (receiveBuffer t).




(** What the dispatcher prints for a command outside the table. *)
Definition invalid_command_log (command payloadSize : Z) (t : BlockingUDPTransport)
    : list LogEntry :=
  [ ErrlogSevPrintf errlogMinor "Invalid (or unsupported) command: %d." command None;
    HexDump "Invalid CA header + , its payload buffer"
      (ByteBuffer.getPosition (receiveBuffer t)) payloadSize ].

(** The buffer [recvfrom] leaves: cleared, with the datagram at its start. *)
Definition received (r : RecvFrom) (t : BlockingUDPTransport) : ByteBuffer :=
  let rb := ByteBuffer.clear (receiveBuffer t) in
  ByteBuffer.setArray rb (list_inserts 0 (data r) (ByteBuffer.arr rb)).

(** The datagram of an empty echo message. *)
Definition echo_datagram (CA_VERSION : Z) (EPICS_BYTE_ORDER_BIG : bool) : list Z :=
  [202; CA_VERSION mod 256; if EPICS_BYTE_ORDER_BIG then 128 else 0; 2; 0; 0; 0; 0].

End Vocabulary.

(** ** Vocabulary of the further statements *)

(** The socket errors after which [processRead] goes on reading
    (lines 211-220). *)
Definition transient (e : SockErr) : Prop :=
  match e with SOCK_EOTHER _ => False | _ => True end.

(** A return of [recvfrom] without a datagram and without an error other
    than a transient one. *)
Definition uneventful (r : RecvFrom) : Prop :=
  bytesRead r <= 0 ∧ (bytesRead r = -1 → transient (socketError r)).


(** A sender that writes one message: [startMessage] and the payload. *)
Definition message_sender (CA_VERSION : Z) (EPICS_BYTE_ORDER_BIG : bool)
    (command ensureCapacity : Z) (ops : list PutOp) : TransportSender :=
  fun t => Ok (writePayload ops
                 (startMessage CA_VERSION EPICS_BYTE_ORDER_BIG command ensureCapacity t)).

(** The log entries of the transport. *)
Definition sendto_error : LogEntry := LOG logLevelDebug "Socket sendto error: %s".
Definition recvfrom_error : LogEntry := LOG logLevelError "Socket recvfrom error: %s".
Definition socket_closed : LogEntry := LOG logLevelDebug "UDP socket %s closed.".
Definition thread_exiting : LogEntry := LOG logLevelDebug "Thread '%s' exiting".
Definition thread_not_exited : LogEntry :=
  LOG logLevelError "Receive thread for UDP socket %s has not exited.".

(** What [BadResponse] prints. *)
Definition undecipherable (command : Z) (from : osiSockAddr) : LogEntry :=
  ErrlogSevPrintf errlogInfo
    "Undecipherable message (bad response type %d) from %s." command (Some from).

(** A well-formed frame of command 2. *)
Definition echo_request (f : Frame) : Prop := valid_frame f ∧ f_command f = CMD_ECHO.

(** The frame an echo reply is on the wire. *)
Definition echo_reply (CA_VERSION : Z) (EPICS_BYTE_ORDER_BIG : bool) : Frame :=
  mkFrame (to_int8 CA_VERSION) (if EPICS_BYTE_ORDER_BIG then -128 else 0) CMD_ECHO [].





(** ** transportRegistry.cpp

    [map(address -> map(priority -> transport))] with a cached count.  The
    outer map's key type and its comparison are declared in
    transportRegistry.h; the model is generic in them: [AddrKey] is whatever
    the map's comparator tells apart. *)
Module TransportRegistry.
Section Registry.

Context {AddrKey : Type} `{Countable AddrKey}.

(** A [Transport::shared_pointer] as the registry sees it. *)
Record Transport : Type := mkTransport {
  ident : N;
  getPriority : Z;                 (* int16 *)
  getRemoteAddress : AddrKey
}.

Record t : Type := mk {
  transports : gmap AddrKey (gmap Z Transport);
  transportCount : Z    (* an int; it counts live transports, no overflow *)
}.

(* TransportRegistry::TransportRegistry() *)
Definition create : t := mk ∅ 0.

Definition put (transport : Transport) (r : t) : t :=
  let priority := getPriority transport in
  let address := getRemoteAddress transport in
  match transports r !! address with
  | None =>
      mk (<[address := <[priority := transport]> ∅]> (transports r))
         (transportCount r + 1)
  | Some priorities =>
      let count :=
        match priorities !! priority with
        | None => transportCount r + 1   (* only if not replacing *)
        | Some _ => transportCount r
        end in
      mk (<[address := <[priority := transport]> priorities]> (transports r))
         count
  end.

(* get(String type, const osiSockAddr* address, const int16 priority) *)
Definition get (address : AddrKey) (priority : Z) (r : t) : option Transport :=
  match transports r !! address with
  | Some priorities => priorities !! priority
  | None => None
  end.

Definition remove (transport : Transport) (r : t) : option Transport * t :=
  let priority := getPriority transport in
  let address := getRemoteAddress transport in
  match transports r !! address with
  | Some priorities =>
      match priorities !! priority with
      | Some retTransport =>
          let priorities' := delete priority priorities in
          (Some retTransport,
           mk (if decide (size priorities' = 0%nat)
               then delete address (transports r)
               else <[address := priorities']> (transports r))
              (transportCount r - 1))
      | None => (None, r)
      end
  | None => (None, r)
  end.

Definition clear (r : t) : t := mk ∅ 0.

Definition numberOfActiveTransports (r : t) : Z := transportCount r.

(** The operations that change a registry, and a run of them. *)
Inductive Op : Type :=
  | Put (transport : Transport)
  | Remove (transport : Transport)
  | Clear.

Definition apply (r : t) (o : Op) : t :=
  match o with
  | Put tr => put tr r
  | Remove tr => snd (remove tr r)
  | Clear => clear r
  end.

Definition run (ops : list Op) : t := foldl apply create ops.

(** The [(address, priority)] pairs stored, as one flat map. *)
Definition stored (r : t) : gmap (AddrKey * Z) Transport :=
  map_uncurry (M1 := gmap AddrKey) (M2 := gmap Z)
    (M12 := gmap (AddrKey * Z)) (transports r).

(** No address is bound to an empty priority map. *)
Definition no_empty_entry (r : t) : Prop :=
  ∀ a m, transports r !! a = Some m → m ≠ ∅.

Definition consistent (r : t) : Prop :=
  numberOfActiveTransports r = Z.of_nat (size (stored r)) ∧ no_empty_entry r.

(** *** The functions that hand out vectors of transports *)

(** What a function returning [auto_ptr<transportVector_t>] hands back: a
    null pointer, a vector of shared pointers (a null one is [None]), or
    the exception of a failed allocation or of [vector::at]. *)
Inductive ArrayResult : Type :=
  | NullArray
  | Array (v : list (option Transport))
  | ArrayThrown.

(* transportArray->at(i) = transport: std::out_of_range past the end *)
Definition at_assign (i : Z) (x : Transport) (v : list (option Transport))
    : option (list (option Transport)) :=
  if decide (0 <= i < Z.of_nat (length v)) then Some (<[Z.to_nat i := Some x]> v)
  else None.

(** The loop that copies the transports an iteration meets into the
    vector, from index [i] on; [None] when [at] throws. *)
Fixpoint fill (items : list Transport) (i : Z) (v : list (option Transport))
    : option (list (option Transport)) :=
  match items with
  | [] => Some v
  | x :: rest =>
      match at_assign i x v with
      | Some v' => fill rest (i + 1) v'
      | None => None
      end
  end.

(** The order in which a map is iterated is fixed by its comparator,
    and the comparators of the two maps are declared in
    transportRegistry.h: [prioritiesIteration] and [transportsIteration]
    list the entries of a priority map and of the address map in the
    order of their iterators. *)
Variable prioritiesIteration : gmap Z Transport → list (Z * Transport).
Variable transportsIteration :
  gmap AddrKey (gmap Z Transport) → list (AddrKey * gmap Z Transport).

(** An iteration meets every entry of the map once. *)
Definition iterates {K V : Type} `{Countable K}
    (order : gmap K V → list (K * V)) : Prop :=
  ∀ m, order m ≡ₚ map_to_list m.

(* get(String type, const osiSockAddr* address) *)
Definition get_all (address : AddrKey) (r : t) : ArrayResult :=
  match transports r !! address with
  | Some priorities =>
      match fill (prioritiesIteration priorities).*2 0
              (replicate (size priorities) None) with
      | Some v => Array v
      | None => ArrayThrown
      end
  | None => NullArray
  end.

(** toArray(), which toArray(String type) calls.  A vector of a negative
    number of entries cannot be allocated. *)
Definition toArray (r : t) : ArrayResult :=
  if transportCount r =? 0 then NullArray
  else if transportCount r <? 0 then ArrayThrown
  else
    match fill (transportsIteration (transports r)
                  ≫= λ entry, (prioritiesIteration entry.2).*2) 0
            (replicate (Z.to_nat (transportCount r)) None) with
    | Some v => Array v
    | None => ArrayThrown
    end.

(** Every transport is stored under its own address and priority. *)
Definition keyed (r : t) : Prop :=
  ∀ a p tr, get a p r = Some tr → getRemoteAddress tr = a ∧ getPriority tr = p.

(** The (address, priority, transport) triples the two nested iterations
    of [toArray] meet. *)
Definition met (ts : gmap AddrKey (gmap Z Transport))
    : list (AddrKey * Z * Transport) :=
  transportsIteration ts
    ≫= λ entry, (λ px, (entry.1, px.1, px.2)) <$> prioritiesIteration entry.2.

End Registry.
End TransportRegistry.

(** ** beaconEmitter.cpp

    The emitter's sequence id, its two periods and the count limit, and the
    delays it hands to [Timer::scheduleAfterDelay] (oldest first).  The
    periods are floating-point numbers in the source, of which only the
    comparison with zero and the choice between them are used once the
    emitter is built; here they are carried as rationals, which is what
    they are when they are finite.  [FloatEmitter] below has them as
    floating-point values and builds the emitter from the configured
    period. *)
Module BeaconEmitter.

Record t : Type := mk {
  beaconSequenceID : Z;            (* int16, as putShort takes it *)
  fastBeaconPeriod : Qc;
  slowBeaconPeriod : Qc;
  beaconCountLimit : Z;            (* int16 *)
  scheduled : list Qc
}.

Definition EPICS_CA_MIN_BEACON_PERIOD : Qc := Q2Qc 1.

(** BeaconEmitter(transport, serverAddress). *)
Definition create_addr : t :=
  mk 0 EPICS_CA_MIN_BEACON_PERIOD (Q2Qc 180) 10 [].

Definition scheduleAfterDelay (delay : Qc) (e : t) : t :=
  mk (beaconSequenceID e) (fastBeaconPeriod e) (slowBeaconPeriod e)
     (beaconCountLimit e) (scheduled e ++ [delay]).

Definition start (e : t) : t := scheduleAfterDelay (Q2Qc 0) e.

Definition reschedule (e : t) : t :=
  let period :=
    if beaconSequenceID e >=? beaconCountLimit e
    then slowBeaconPeriod e else fastBeaconPeriod e in
  if decide (Q2Qc 0 < period)%Qc then scheduleAfterDelay period e else e.

(** [send]: the beacon datagram it writes (lines 71-106) reads the
    sequence id and changes no field of the emitter; then the id is
    incremented and the next callback scheduled. *)
Definition send (e : t) : t :=
  reschedule
    (mk (to_int16 (beaconSequenceID e + 1)) (fastBeaconPeriod e)
        (slowBeaconPeriod e) (beaconCountLimit e) (scheduled e)).

(** The emitter after [n] beacons. *)
Fixpoint beacons (n : nat) (e : t) : t :=
  match n with
  | O => e
  | S k => send (beacons k e)
  end.

(** The delay chosen while sending the [k]-th beacon (k = 1, 2, ...):
    the entry that beacon appended to the timer's requests. *)
Definition decision (k : nat) (e : t) : option Qc :=
  scheduled (beacons k e) !! (length (scheduled e) + k - 1)%nat.

(** The period [reschedule] picks once the sequence id, starting from
    that of [e], has been incremented [k] times. *)
Definition choice (e : t) (k : nat) : Qc :=
  if to_int16 (beaconSequenceID e + Z.of_nat k) >=? beaconCountLimit e
  then slowBeaconPeriod e else fastBeaconPeriod e.

Definition positive_periods (e : t) : Prop :=
  (Q2Qc 0 < fastBeaconPeriod e)%Qc ∧ (Q2Qc 0 < slowBeaconPeriod e)%Qc.

End BeaconEmitter.

(** ** beaconEmitter.cpp, with the periods as floating-point values

    The constructor that reads the server context takes the period from
    [getBeaconPeriod()], a [float] that can also be an infinity or NaN.
    Here the emitter has its periods as such values.  Of the
    floating-point operations the source uses [<] (inside [std::max]),
    [> 0], the conversion from [float] to [double], which is exact, and
    the cast of one constant to [int16]; the two zeros, which none of
    these tells apart, are one value. *)
Module FloatEmitter.

Inductive float : Type :=
  | NaN
  | NegInf
  | Finite (q : Qc)
  | PosInf.

(** [a < b]: false when either side is NaN. *)
Definition flt (a b : float) : bool :=
  match a, b with
  | NaN, _ | _, NaN => false
  | _, NegInf => false
  | NegInf, _ => true
  | PosInf, _ => false
  | _, PosInf => true
  | Finite x, Finite y => bool_decide (x < y)%Qc
  end.

(** [std::max(a, b)], which is [(a < b) ? b : a]. *)
Definition fmax (a b : float) : float := if flt a b then b else a.

(** [(int16) x]: the fraction is dropped.  The cast of NaN and of the
    infinities is undefined; the source casts a constant. *)
Definition to_int16_float (x : float) : Z :=
  match x with
  | Finite q => to_int16 (Z.quot (Qnum (this q)) (Z.pos (Qden (this q))))
  | _ => 0
  end.

Definition EPICS_CA_MIN_BEACON_PERIOD : float := Finite (Q2Qc 1).
Definition EPICS_CA_MIN_BEACON_COUNT_LIMIT : float := Finite (Q2Qc 3).

Record t : Type := mk {
  beaconSequenceID : Z;            (* int16 *)
  fastBeaconPeriod : float;        (* double *)
  slowBeaconPeriod : float;        (* double *)
  beaconCountLimit : Z;            (* int16 *)
  scheduled : list float
}.

(** BeaconEmitter(transport, context), from [context->getBeaconPeriod()]. *)
Definition create (beaconPeriod : float) : t :=
  let fast := fmax beaconPeriod EPICS_CA_MIN_BEACON_PERIOD in
  mk 0 fast (fmax (Finite (Q2Qc 180)) fast)
     (to_int16_float (fmax (Finite (Q2Qc 10)) EPICS_CA_MIN_BEACON_COUNT_LIMIT)) [].

(** BeaconEmitter(transport, serverAddress). *)
Definition create_addr : t :=
  mk 0 EPICS_CA_MIN_BEACON_PERIOD (Finite (Q2Qc 180)) 10 [].

Definition scheduleAfterDelay (delay : float) (e : t) : t :=
  mk (beaconSequenceID e) (fastBeaconPeriod e) (slowBeaconPeriod e)
     (beaconCountLimit e) (scheduled e ++ [delay]).

Definition start (e : t) : t := scheduleAfterDelay (Finite (Q2Qc 0)) e.

Definition reschedule (e : t) : t :=
  let period :=
    if beaconSequenceID e >=? beaconCountLimit e
    then slowBeaconPeriod e else fastBeaconPeriod e in
  if flt (Finite (Q2Qc 0)) period then scheduleAfterDelay period e else e.

(** [send], as in [BeaconEmitter.send]: the id is incremented and the
    next callback scheduled. *)
Definition send (e : t) : t :=
  reschedule
    (mk (to_int16 (beaconSequenceID e + 1)) (fastBeaconPeriod e)
        (slowBeaconPeriod e) (beaconCountLimit e) (scheduled e)).

(** The emitter after [n] calls of [send]. *)
Fixpoint beacons (n : nat) (e : t) : t :=
  match n with
  | O => e
  | S k => send (beacons k e)
  end.

(** [a <= b]: false when either side is NaN. *)
Definition fle (a b : float) : bool :=
  match a, b with
  | NaN, _ | _, NaN => false
  | NegInf, _ => true
  | _, NegInf => false
  | _, PosInf => true
  | PosInf, _ => false
  | Finite x, Finite y => bool_decide (x <= y)%Qc
  end.

(** An emitter of [BeaconEmitter], whose periods are finite, as an
    emitter of this module. *)
Definition of_rational (e : BeaconEmitter.t) : t :=
  mk (BeaconEmitter.beaconSequenceID e)
     (Finite (BeaconEmitter.fastBeaconPeriod e))
     (Finite (BeaconEmitter.slowBeaconPeriod e))
     (BeaconEmitter.beaconCountLimit e)
     (Finite <$> BeaconEmitter.scheduled e).

End FloatEmitter.

(** ** Concrete instances

    A little-endian host speaking protocol version 0x50, a peer, an idle
    transport with 64-byte buffers, and a few frames. *)
Module Sample.

Definition version : Z := 80.

Definition peer : osiSockAddr := mkAddr 2 5076 3232235777.

Definition sendto_all : osiSockAddr -> list Z -> Z :=
  fun _ dgram => Z.of_nat (length dgram).

Definition idle : BlockingUDPTransport :=
  mkUDP false None None (mkAddr 0 0 0) false
    (ByteBuffer.create 64 false) (ByteBuffer.create 64 false)
    0 0 0 0 [] [].

(** The transport with [bytes] received and the buffer flipped. *)
Definition holding (bytes : list Z) : BlockingUDPTransport :=
  with_receiveBuffer
    (ByteBuffer.mk (bytes ++ replicate (64 - length bytes) 0) 0
       (Z.of_nat (length bytes)) false)
    idle.

Definition server : ResponseHandler :=
  ServerResponseHandler_handleResponse (handlerTable version false sendto_all false).

(** A handler that reads one byte of every payload and no more. *)
Definition underreading : ResponseHandler :=
  fun _ _ _ _ t =>
    Ok (with_receiveBuffer (ByteBuffer.getByte (receiveBuffer t)).2 t).

Definition echo_frame : Frame := mkFrame version 0 2 [].

Definition validation_payload : list Z :=
  enc false 4 65536 ++ enc false 4 131072 ++ enc false 2 1.

Definition validation_frame : Frame := mkFrame version 0 1 validation_payload.

Definition bad_magic : list Z := [255; 1; 0; 1; 0; 0; 0; 0].

Definition payload_writes : list PutOp := [PutShort 7; PutInt 5].

(** An echo header whose length field is -8. *)
Definition negative_length : list Z := [202; 80; 0; 2; 248; 255; 255; 255].

End Sample.

(** More instances: a second peer, a transport that broadcasts, returns
    of [recvfrom], and a handler that throws. *)
Module Scenario.

Import Sample.

Definition peer2 : osiSockAddr := mkAddr 2 5076 3232235778.

(** A transport with two send addresses, which an earlier reply has left
    with a recipient of its own. *)
Definition broadcasting : BlockingUDPTransport :=
  mkUDP false (Some [peer; peer2]) None peer true
    (ByteBuffer.create 64 false) (ByteBuffer.create 64 false)
    0 0 0 0 [] [].

Definition timed_out : RecvFrom := mkRecv (-1) peer [] SOCK_ETIMEDOUT.
Definition nothing_read : RecvFrom := mkRecv 0 peer [] SOCK_EINTR.
Definition broken : RecvFrom := mkRecv (-1) peer [] (SOCK_EOTHER 9).

(** A transport told to ignore the second peer, and that peer seen from
    another port. *)
Definition ignoring_peer2 : BlockingUDPTransport :=
  mkUDP false None (Some [mkAddr 0 0 3232235778]) (mkAddr 0 0 0) false
    (ByteBuffer.create 64 false) (ByteBuffer.create 64 false)
    0 0 0 0 [] [].

Definition peer2_elsewhere : osiSockAddr := mkAddr 2 40000 3232235778.


Definition frame5 : Frame := mkFrame version 0 5 [1; 2].

Definition datagram5 : RecvFrom := mkRecv 10 peer (frame_bytes frame5) SOCK_EINTR.

(** Two echo requests in one datagram. *)
Definition two_echoes : RecvFrom :=
  mkRecv 16 peer (datagram [echo_frame; echo_frame]) SOCK_EINTR.


(** The entries of a map by ascending key, the order in which a
    [std::map] with the default comparator is iterated. *)
Definition ascending {V : Type} (m : gmap Z V) : list (Z * V) :=
  @merge_sort _ (λ x y, x.1 <= y.1) (λ x y, decide (x.1 <= y.1)) (map_to_list m).

(** Transports of priority 0 and 1 at address 7 and of priority 0 at
    address 8, integers standing for the addresses. *)
Definition at7_0 := TransportRegistry.mkTransport 1 0 7%Z.
Definition at7_1 := TransportRegistry.mkTransport 2 1 7%Z.
Definition at8_0 := TransportRegistry.mkTransport 3 0 8%Z.

Definition three_transports :=
  TransportRegistry.run
    [TransportRegistry.Put at7_1; TransportRegistry.Put at8_0;
     TransportRegistry.Put at7_0].

End Scenario.

(** * Properties *)

(** ** Fixed-width arithmetic *)

(** Powers of two with a literal exponent become literals. *)
Ltac eval_pow2 :=
  repeat match goal with
         | |- context [2 ^ ?n] =>
             let v := eval vm_compute in (2 ^ n) in change (2 ^ n) with v
         | H : context [2 ^ ?n] |- _ =>
             let v := eval vm_compute in (2 ^ n) in change (2 ^ n) with v in H
         end.

(** Goals about the wrap-around conversions: unfold them, split on the
    sign tests, and leave the quotients and remainders to [lia]. *)
Ltac wrap_lia :=
  unfold is_int8, is_int32, to_int8, to_int16, to_int32, to_size_t,
    wrap_signed in *;
  intros; eval_pow2;
  repeat match goal with
         | |- context [?a <? ?b] => destruct (Z.ltb_spec a b)
         end;
  Z.to_euclidean_division_equations; lia.

Lemma to_int16_idemp_add (x y : Z) : to_int16 (to_int16 x + y) = to_int16 (x + y).
Proof. wrap_lia. Qed.

Lemma to_int16_small (x : Z) : -32768 <= x <= 32767 → to_int16 x = x.
Proof. wrap_lia. Qed.

Lemma wrap_signed_mod (bits x : Z) :
  0 < bits → wrap_signed bits (x mod 2 ^ bits) = wrap_signed bits x.
Proof.
  intros Hb. unfold wrap_signed. by rewrite Z.mod_mod by (apply Z.pow_nonzero; lia).
Qed.

Lemma to_int32_small (x : Z) : is_int32 x → to_int32 x = x.
Proof. wrap_lia. Qed.

Lemma to_int8_small (x : Z) : is_int8 x → to_int8 x = x.
Proof. wrap_lia. Qed.

Lemma to_int32_range (x : Z) : is_int32 (to_int32 x).
Proof. wrap_lia. Qed.

Lemma to_int32_to_size_t (x : Z) : to_int32 (to_size_t x) = to_int32 x.
Proof.
  unfold to_int32, to_size_t, wrap_signed.
  change (2 ^ 64) with (4294967296 * 4294967296).
  change (2 ^ 32) with 4294967296.
  replace (x mod (4294967296 * 4294967296) mod 4294967296)
    with (x mod 4294967296); [done|].
  Z.to_euclidean_division_equations; lia.
Qed.

Lemma to_int8_mod (x : Z) : to_int8 x mod 256 = x mod 256.
Proof. wrap_lia. Qed.

Lemma to_int8_range (x : Z) : is_int8 (to_int8 x).
Proof. wrap_lia. Qed.


(** The cursor after a frame, as the source computes it in [size_t], is
    the plain sum when that sum is a valid position. *)
Lemma next_position_exact (q s : Z) :
  0 <= q → is_int32 s → 0 <= q + s < 2 ^ 64 →
  to_size_t (q + to_size_t s) = q + s.
Proof. wrap_lia. Qed.


(** ** Byte codec *)

Lemma length_le_bytes n v : length (le_bytes n v) = n.
Proof. revert v. induction n as [|n IH]; intros v; simpl; [done|]. by rewrite IH. Qed.

Lemma length_enc big n v : length (enc big n v) = n.
Proof. unfold enc. destruct big; rewrite ?length_reverse; apply length_le_bytes. Qed.

Lemma le_value_le_bytes n v : le_value (le_bytes n v) = v mod 256 ^ Z.of_nat n.
Proof.
  revert v. induction n as [|n IH]; intros v.
  - simpl. by rewrite Z.mod_1_r.
  - cbn [le_bytes le_value]. rewrite IH.
    rewrite Nat2Z.inj_succ, Z.pow_succ_r by lia.
    rewrite Z.rem_mul_r; [done|lia|]. apply Z.pow_pos_nonneg; lia.
Qed.

Lemma dec_enc big n v : dec big (enc big n v) = v mod 256 ^ Z.of_nat n.
Proof.
  unfold dec, enc. destruct big; rewrite ?reverse_involutive; apply le_value_le_bytes.
Qed.

Lemma dec_enc_int32 big v : is_int32 v → to_int32 (dec big (enc big 4 v)) = v.
Proof.
  intros Hv. rewrite dec_enc. change (256 ^ Z.of_nat 4) with (2 ^ 32).
  unfold to_int32. rewrite wrap_signed_mod by lia. by apply to_int32_small.
Qed.

Lemma dec_enc_int8 big v : is_int8 v → to_int8 (dec big (enc big 1 v)) = v.
Proof.
  intros Hv. rewrite dec_enc. change (256 ^ Z.of_nat 1) with (2 ^ 8).
  unfold to_int8. rewrite wrap_signed_mod by lia. by apply to_int8_small.
Qed.

Lemma enc_1 big v : enc big 1 v = [v mod 256].
Proof. by destruct big. Qed.


Lemma enc_4_0 big : enc big 4 0 = [0; 0; 0; 0].
Proof. by destruct big. Qed.

(** ** Slices of the byte array *)

Lemma slice_lookup l p n (i : nat) :
  slice l p n !! i = if decide (i < n)%nat then l !! (Z.to_nat p + i)%nat else None.
Proof.
  unfold slice. case_decide.
  - rewrite lookup_take_lt by done. by rewrite lookup_drop.
  - by rewrite lookup_take_ge by lia.
Qed.

Lemma slice_inserts_same l (i : Z) k :
  0 <= i → i + Z.of_nat (length k) <= Z.of_nat (length l) →
  slice (list_inserts (Z.to_nat i) k l) i (length k) = k.
Proof.
  intros Hi Hl. apply list_eq. intros j. rewrite slice_lookup. case_decide.
  - rewrite list_lookup_inserts by lia. f_equal. lia.
  - symmetry. apply lookup_ge_None. lia.
Qed.

Lemma slice_inserts_other l (i : Z) k (j : Z) n :
  0 <= i → 0 <= j →
  j + Z.of_nat n <= i ∨ i + Z.of_nat (length k) <= j →
  slice (list_inserts (Z.to_nat i) k l) j n = slice l j n.
Proof.
  intros Hi Hj Hd. apply list_eq. intros x. rewrite !slice_lookup. case_decide; [|done].
  destruct Hd.
  - apply list_lookup_inserts_lt. lia.
  - apply list_lookup_inserts_ge. lia.
Qed.

Lemma slice_of_drop l (p : Z) pre k rest :
  0 <= p → drop (Z.to_nat p) l = pre ++ k ++ rest →
  slice l (p + Z.of_nat (length pre)) (length k) = k.
Proof.
  intros Hp Hd. unfold slice.
  replace (Z.to_nat (p + Z.of_nat (length pre))) with (Z.to_nat p + length pre)%nat by lia.
  rewrite <- drop_drop, Hd, drop_app_length. by rewrite take_app_length.
Qed.

(** ** Buffer accessors *)

Section BufferFacts.

Import ByteBuffer.

Lemma getByte_at b x :
slice (arr b) (position b) 1 = [x mod 256] → is_int8 x →
getByte b = (x, setPosition b (position b + 1)).
Proof.
intros Hs Hx. unfold getByte, get. rewrite Hs.
rewrite <- (enc_1 (bigEndian b) x), dec_enc_int8 by done. done.
Qed.

Lemma getInt_at b x :
slice (arr b) (position b) 4 = enc (bigEndian b) 4 x → is_int32 x →
getInt b = (x, setPosition b (position b + 4)).
Proof.
intros Hs Hx. unfold getInt, get. rewrite Hs, dec_enc_int32 by done. done.
Qed.

Lemma getByte_mk a p l e x :
slice a p 1 = [x mod 256] → is_int8 x →
getByte (mk a p l e) = (x, mk a (p + 1) l e).
Proof. intros Hs Hx. by rewrite (getByte_at (mk a p l e) x). Qed.

Lemma getInt_mk a p l e x :
slice a p 4 = enc e 4 x → is_int32 x →
getInt (mk a p l e) = (x, mk a (p + 4) l e).
Proof. intros Hs Hx. by rewrite (getInt_at (mk a p l e) x). Qed.

Lemma apply_put_put b o : apply_put b o = put (put_size o) (put_value o) b.
Proof. by destruct o. Qed.

Lemma list_inserts_take_drop (l k : list Z) (i : nat) :
(i + length k ≤ length l)%nat →
list_inserts i k l = take i l ++ k ++ drop (i + length k) l.
Proof.
intros Hl.
rewrite <- (take_drop i l) at 1.
rewrite <- (take_drop (length k) (drop i l)) at 1.
replace i with (length (take i l) + 0)%nat at 1 by (rewrite length_take; lia).
rewrite list_inserts_app_r, list_inserts_0_r, drop_drop; [done|].
rewrite length_take, length_drop. lia.
Qed.

Lemma put_bytes n v b :
0 <= position b →
position b + Z.of_nat n <= Z.of_nat (length (arr b)) →
put n v b
= mk (take (Z.to_nat (position b)) (arr b) ++ enc (bigEndian b) n v
      ++ drop (Z.to_nat (position b) + n) (arr b))
     (position b + Z.of_nat n) (limit b) (bigEndian b).
Proof.
intros Hp Hl. unfold put, putAt, setPosition, setArray.
cbn [arr position limit bigEndian].
rewrite list_inserts_take_drop by (rewrite length_enc; lia).
by rewrite length_enc.
Qed.

Lemma length_written big ops :
length (written big ops) = sum_list (put_size <$> ops).
Proof.
unfold written. induction ops as [|o ops IH]; [done|].
rewrite !fmap_cons, concat_cons, length_app, length_enc, IH. done.
Qed.

Lemma written_cons big o ops :
written big (o :: ops) = enc big (put_size o) (put_value o) ++ written big ops.
Proof. reflexivity. Qed.

Lemma writes_bytes ops b :
0 <= position b →
position b + Z.of_nat (length (written (bigEndian b) ops))
  <= Z.of_nat (length (arr b)) →
foldl apply_put b ops
= mk (take (Z.to_nat (position b)) (arr b) ++ written (bigEndian b) ops
      ++ drop (Z.to_nat (position b) + length (written (bigEndian b) ops)) (arr b))
     (position b + Z.of_nat (length (written (bigEndian b) ops)))
     (limit b) (bigEndian b).
Proof.
revert b. induction ops as [|o ops IH]; intros b Hp Hl.
- unfold written. simpl. rewrite Nat.add_0_r, take_drop, Z.add_0_r. by destruct b.
- rewrite written_cons in *. rewrite length_app, length_enc in *.
  cbn [foldl]. rewrite apply_put_put.
  rewrite put_bytes by lia.
  set (p := Z.to_nat (position b)) in *. set (n := put_size o) in *.
  set (w := written (bigEndian b) ops) in *.
  assert (Hlt : length (take p (arr b)) = p) by (rewrite length_take; lia).
  rewrite IH; cbn [arr position limit bigEndian]; fold w.
  + f_equal; [|lia].
    replace (Z.to_nat (position b + Z.of_nat n)) with (p + n)%nat by lia.
    rewrite (app_assoc (take p (arr b)) (enc (bigEndian b) n (put_value o))
               (drop (p + n) (arr b))).
    rewrite (take_app_length' (take p (arr b) ++ enc (bigEndian b) n (put_value o)))
      by (rewrite length_app, length_enc; lia).
    rewrite (drop_app_add' (take p (arr b) ++ enc (bigEndian b) n (put_value o)))
      by (rewrite length_app, length_enc; lia).
    rewrite <- !app_assoc. do 3 f_equal.
    rewrite drop_drop. f_equal. lia.
  + lia.
  + rewrite !length_app, length_take, length_enc, length_drop. lia.
Qed.

Lemma written_app big ops1 ops2 :
written big (ops1 ++ ops2) = written big ops1 ++ written big ops2.
Proof. unfold written. by rewrite fmap_app, concat_app. Qed.

End BufferFacts.

(** ** The receive path *)


Lemma reads_only_keeps_bytes (h : ResponseHandler) : reads_only h → keeps_bytes h.
Proof.
  intros Hh from v c n t t' E.
  destruct (Hh from v c n t) as (t'' & E' & Hb). congruence.
Qed.

Section ReceiveFacts.

Import ByteBuffer.

Variable h : ResponseHandler.

Lemma processBuffer_frame (fuel : nat) (from : osiSockAddr)
    (t : BlockingUDPTransport) (v fl c len : Z) (rest : list Z) :
  let rb := receiveBuffer t in
  0 <= position rb →
  limit rb < 2 ^ 31 →
  is_int8 v → is_int8 fl → is_int8 c → is_int32 len →
  drop (Z.to_nat (position rb)) (arr rb)
    = [202; v mod 256; fl mod 256; c mod 256] ++ enc (fl <? 0) 4 len ++ rest →
  position rb + 8 <= limit rb →
  0 <= position rb + 8 + len <= limit rb →
  processBuffer h (S fuel) from t
  = let b6 := mk (arr rb) (position rb + 8) (limit rb) (fl <? 0) in
    let call := mkCall from v c len b6 in
    match h from v c len (with_receiveBuffer b6 t) with
    | Thrown t' => (Raised, t', [call])
    | Ok t' =>
        let '(e, tf, cs) :=
          processBuffer h fuel from
            (with_receiveBuffer
               (setPosition (receiveBuffer t') (position rb + 8 + len)) t') in
        (e, tf, call :: cs)
    end.
Proof.
  destruct t as [cl sa ia st ste [a p l e] sb lm r1 r2 r3 w lg].
  cbn [receiveBuffer position limit arr bigEndian].
  intros Hpos Hlim Hv Hfl Hc Hlen32 Hd Hhdr Hfit.
  cbn [processBuffer receiveBuffer].
  assert (Hg : (to_int32 (getRemaining (mk a p l e)) >=? CA_MESSAGE_HEADER_SIZE) = true).
  { unfold getRemaining, CA_MESSAGE_HEADER_SIZE. cbn [position limit].
    rewrite to_int32_small by (unfold is_int32; lia). apply Z.geb_le. lia. }
  rewrite Hg.
  assert (H0 : slice a p 1 = [CA_MAGIC mod 256]).
  { pose proof (slice_of_drop a p [] [202] _ Hpos Hd) as Hs.
    simpl in Hs. by rewrite Z.add_0_r in Hs. }
  assert (H1 : slice a (p + 1) 1 = [v mod 256])
    by exact (slice_of_drop a p [202] [v mod 256] _ Hpos Hd).
  assert (H2 : slice a (p + 1 + 1) 1 = [fl mod 256]).
  { replace (p + 1 + 1) with (p + 2) by lia.
    exact (slice_of_drop a p [202; v mod 256] [fl mod 256] _ Hpos Hd). }
  assert (H3 : slice a (p + 1 + 1 + 1) 1 = [c mod 256]).
  { replace (p + 1 + 1 + 1) with (p + 3) by lia.
    exact (slice_of_drop a p [202; v mod 256; fl mod 256] [c mod 256] _ Hpos Hd). }
  assert (H4 : slice a (p + 1 + 1 + 1 + 1) 4 = enc (fl <? 0) 4 len).
  { replace (p + 1 + 1 + 1 + 1) with (p + 4) by lia.
    pose proof (slice_of_drop a p [202; v mod 256; fl mod 256; c mod 256]
                  (enc (fl <? 0) 4 len) rest Hpos Hd) as Hs.
    by rewrite length_enc in Hs. }
  rewrite (getByte_mk a p l e CA_MAGIC) by done. cbv beta iota zeta.
  rewrite (getByte_mk a (p + 1) l e v) by done. cbv beta iota zeta.
  rewrite Z.eqb_refl. cbn [negb].
  rewrite (getByte_mk a (p + 1 + 1) l e fl) by done. cbv beta iota zeta.
  unfold setEndianess. cbn [position limit arr bigEndian].
  rewrite (getByte_mk a (p + 1 + 1 + 1) l (fl <? 0) c) by done. cbv beta iota zeta.
  rewrite (getInt_mk a (p + 1 + 1 + 1 + 1) l (fl <? 0) len) by done.
  cbv beta iota zeta.
  cbn [getPosition getLimit position limit with_receiveBuffer].
  rewrite to_int32_to_size_t, (to_int32_small len) by done.
  replace (p + 1 + 1 + 1 + 1 + 4) with (p + 8) by lia.
  rewrite next_position_exact
    by (done || (change (2 ^ 64) with 18446744073709551616;
                 change (2 ^ 31) with 2147483648 in Hlim; lia)).
  replace (p + 8 + len >? l) with false by (symmetry; rewrite Z.gtb_ltb; apply Z.ltb_ge; lia).
  reflexivity.
Qed.








Lemma length_frame_bytes f :
  length (frame_bytes f) = (8 + length (f_payload f))%nat.
Proof. unfold frame_bytes. rewrite !length_app, length_enc. simpl. lia. Qed.

(** C7.  Whatever the handler does with the cursor, after each frame
    whose handler returns the cursor is put just past that frame's header
    and payload: a datagram of valid frames is taken apart frame by frame,
    each frame decoded from its own start, and the handler is called once
    for each, in order, until the datagram is used up or a handler throws.
    The run is the one [frames_in_turn] describes; it ends before the
    last frame only with the exception that the handler has thrown for
    the last frame it was called for. *)
Theorem cursor_repositioned_after_each_frame
    (fs : list Frame) (from : osiSockAddr) (t : BlockingUDPTransport)
    (junk : list Z) :
  keeps_bytes h →
  Forall valid_frame fs →
  0 <= position (receiveBuffer t) →
  drop (Z.to_nat (position (receiveBuffer t))) (arr (receiveBuffer t))
    = datagram fs ++ junk →
  limit (receiveBuffer t)
    = position (receiveBuffer t) + Z.of_nat (length (datagram fs)) →
  limit (receiveBuffer t) < 2 ^ 31 →
  processBuffer h (S (length fs)) from t = frames_in_turn h from fs t
  ∧ ∃ e tf n,
      processBuffer h (S (length fs)) from t
      = (e, tf,
         take n (frame_calls from (arr (receiveBuffer t)) (limit (receiveBuffer t))
                   (position (receiveBuffer t)) fs))
      ∧ ((e = Returned true ∧ n = length fs
          ∧ position (receiveBuffer tf) = limit (receiveBuffer t))
         ∨ (e = Raised ∧ (1 ≤ n ≤ length fs)%nat
            ∧ ∃ c s,
                frame_calls from (arr (receiveBuffer t)) (limit (receiveBuffer t))
                  (position (receiveBuffer t)) fs !! (n - 1)%nat = Some c
                ∧ receiveBuffer s = c_buffer c
                ∧ h from (c_version c) (c_command c) (c_payloadSize c) s
                  = Thrown tf)).
Proof.
  intros Hh Hfs. revert t.
  induction Hfs as [|f fs (Hv & Hfl & Hc) Hfs IH]; intros t Hpos Hd Hl Hlim.
  - unfold datagram in Hl. simpl in Hl.
    assert (Hrun : processBuffer h 1 from t = (Returned true, t, [])).
    { cbn [processBuffer].
      replace (to_int32 (getRemaining (receiveBuffer t)) >=? CA_MESSAGE_HEADER_SIZE)
        with false; [done|].
      symmetry. unfold getRemaining. replace (limit _ - position _) with 0 by lia.
      done. }
    cbn [length]. rewrite Hrun. split; [done|].
    exists (Returned true), t, 0%nat.
    split; [done|left; repeat split; lia].
  - unfold datagram in Hd, Hl. rewrite fmap_cons, concat_cons in Hd, Hl.
    fold (datagram fs) in Hd, Hl.
    rewrite length_app, length_frame_bytes in Hl.
    assert (Hd' : drop (Z.to_nat (position (receiveBuffer t))) (arr (receiveBuffer t))
                  = [202; f_version f mod 256; f_flags f mod 256; f_command f mod 256]
                    ++ enc (f_flags f <? 0) 4 (Z.of_nat (length (f_payload f)))
                    ++ (f_payload f ++ datagram fs ++ junk)).
    { rewrite Hd. unfold frame_bytes. by rewrite <- !app_assoc. }
    cbn [length].
    rewrite (processBuffer_frame (S (length fs)) from t (f_version f) (f_flags f)
               (f_command f) (Z.of_nat (length (f_payload f)))
               (f_payload f ++ datagram fs ++ junk))
      by (done || (unfold is_int32; change (2 ^ 31) with 2147483648 in Hlim; lia)).
    cbv zeta. cbn [frame_calls frames_in_turn]. cbv zeta.
    destruct (h from (f_version f) (f_command f) (Z.of_nat (length (f_payload f)))
                (with_receiveBuffer
                   (mk (arr (receiveBuffer t)) (position (receiveBuffer t) + 8)
                      (limit (receiveBuffer t)) (f_flags f <? 0)) t))
      as [t'|t'] eqn:Eh.
    2:{ split; [done|]. exists Raised, t', 1%nat. split; [done|]. right.
        split; [done|]. split; [lia|].
        eexists _, _. split; [reflexivity|]. split; [|exact Eh]. done. }
    destruct (Hh _ _ _ _ _ _ Eh) as (Ha & Hlm).
    cbn [receiveBuffer with_receiveBuffer arr limit] in Ha, Hlm.
    match goal with |- context [processBuffer h _ from ?t''] =>
      destruct (IH t'') as (Hturn & e & tf & n & Hrun & Hcase)
    end.
    + cbn [receiveBuffer with_receiveBuffer setPosition position]. lia.
    + cbn [receiveBuffer with_receiveBuffer setPosition position arr]. rewrite Ha.
      replace (Z.to_nat (position (receiveBuffer t) + 8
                         + Z.of_nat (length (f_payload f))))
        with (Z.to_nat (position (receiveBuffer t)) + length (frame_bytes f))%nat
        by (rewrite length_frame_bytes; lia).
      rewrite <- (drop_drop _ (length (frame_bytes f))
                    (Z.to_nat (position (receiveBuffer t)))).
      rewrite Hd, <- app_assoc, drop_app_length. done.
    + cbn [receiveBuffer with_receiveBuffer setPosition position limit]. lia.
    + cbn [receiveBuffer with_receiveBuffer setPosition position limit]. lia.
    + split; [by rewrite Hturn|].
      cbn [receiveBuffer with_receiveBuffer setPosition position limit arr]
        in Hrun, Hcase.
      rewrite Ha, Hlm in Hrun. rewrite Ha, Hlm in Hcase.
      exists e, tf, (S n). rewrite Hrun. split; [done|].
      destruct Hcase as [(-> & -> & Hp)|(-> & Hn & c & s & Hc' & Hb & Hs)].
      * left. by repeat split.
      * right. split; [done|]. split; [cbn [length]; lia|].
        exists c, s. split; [|done].
        replace (S n - 1)%nat with (S (n - 1)) by lia. exact Hc'.
Qed.

(** X1.  The length field is read as a signed 32-bit integer and is not
    checked for being negative.  A frame whose length field is -8 passes
    the limit check, because the cursor past the header plus the length
    wraps around to the frame's own start; the handler is called, the
    cursor is put back on the same frame, and [processBuffer] goes on
    calling the handler for that frame without ever returning. *)
Theorem negative_length_never_returns
    (from : osiSockAddr) (t : BlockingUDPTransport) (v fl c : Z) (rest : list Z)
    (fuel : nat) :
  reads_only h →
  0 <= position (receiveBuffer t) →
  limit (receiveBuffer t) < 2 ^ 31 →
  is_int8 v → is_int8 fl → is_int8 c →
  drop (Z.to_nat (position (receiveBuffer t))) (arr (receiveBuffer t))
    = [202; v mod 256; fl mod 256; c mod 256] ++ enc (fl <? 0) 4 (-8) ++ rest →
  position (receiveBuffer t) + 8 <= limit (receiveBuffer t) →
  ∃ tf, processBuffer h fuel from t
        = (Unfinished, tf,
           replicate fuel
             (mkCall from v c (-8)
                (mk (arr (receiveBuffer t)) (position (receiveBuffer t) + 8)
                   (limit (receiveBuffer t)) (fl <? 0)))).
Proof.
  intros Hh Hpos Hlim Hv Hfl Hc Hd Hhdr.
  remember (arr (receiveBuffer t)) as a eqn:Ea.
  remember (position (receiveBuffer t)) as p eqn:Ep.
  remember (limit (receiveBuffer t)) as l eqn:El.
  revert t Ea Ep El. induction fuel as [|fuel IH]; intros t Ea Ep El.
  { by exists t. }
  rewrite (processBuffer_frame fuel from t v fl c (-8) rest);
    rewrite <- ?Ea, <- ?Ep, <- ?El; try done; [|lia].
  cbv zeta.
  destruct (Hh from v c (-8) (with_receiveBuffer (mk a (p + 8) l (fl <? 0)) t))
    as (t' & -> & Ha & Hl).
  cbn [receiveBuffer with_receiveBuffer arr limit] in Ha, Hl.
  match goal with |- context [processBuffer h fuel from ?t''] =>
    destruct (IH t'') as (tf & ->)
  end.
  - by cbn [receiveBuffer with_receiveBuffer setPosition arr].
  - cbn [receiveBuffer with_receiveBuffer setPosition position]. lia.
  - by cbn [receiveBuffer with_receiveBuffer setPosition limit].
  - by exists tf.
Qed.

End ReceiveFacts.


(** ** Encoding a message and decoding it again *)

Section RoundTrip.

Import ByteBuffer.


Variable CA_VERSION : Z.
Variable EPICS_BYTE_ORDER_BIG : bool.

Local Abbreviation big := EPICS_BYTE_ORDER_BIG.

Lemma message_bytes_any_order (command ensureCapacity : Z) (ops : list PutOp)
    (t : BlockingUDPTransport) :
  let sb := sendBuffer t in
  let e := bigEndian sb in
  0 <= position sb →
  position sb + 8 + Z.of_nat (length (written e ops)) <= Z.of_nat (length (arr sb)) →
  sendBuffer (endMessage (writePayload ops
                (startMessage CA_VERSION big command ensureCapacity t)))
  = mk (take (Z.to_nat (position sb)) (arr sb)
        ++ ([202; CA_VERSION mod 256; (if big then 128 else 0) mod 256;
             command mod 256]
            ++ enc e 4 (Z.of_nat (length (written e ops))) ++ written e ops)
        ++ drop (Z.to_nat (position sb) + (8 + length (written e ops))) (arr sb))
       (position sb + 8 + Z.of_nat (length (written e ops)))
       (limit sb) e.
Proof.
  intros sb e Hp Hl.
  set (hdr := [PutByte CA_MAGIC; PutByte CA_VERSION;
               PutByte (if big then 128 else 0); PutByte command; PutInt 0]).
  assert (Hw : sendBuffer (writePayload ops
                 (startMessage CA_VERSION big command ensureCapacity t))
               = foldl apply_put sb (hdr ++ ops)).
  { rewrite foldl_app. reflexivity. }
  assert (Hlm : lastMessageStartPosition (writePayload ops
                  (startMessage CA_VERSION big command ensureCapacity t))
                = position sb) by reflexivity.
  unfold endMessage. rewrite Hlm, Hw.
  cbn [sendBuffer with_sendBuffer].
  assert (Hwh : written e hdr
                = [202; CA_VERSION mod 256; (if big then 128 else 0) mod 256;
                   command mod 256] ++ enc e 4 0).
  { unfold written, hdr. cbn [fmap list_fmap concat put_size put_value].
    rewrite !enc_1, app_nil_r. reflexivity. }
  assert (Hlw : length (written e (hdr ++ ops)) = (8 + length (written e ops))%nat).
  { rewrite written_app, length_app, Hwh, length_app, length_enc. reflexivity. }
  rewrite writes_bytes by (fold e; rewrite ?Hlw; lia).
  fold e. rewrite Hlw. unfold putIntAt, putAt, setArray, getPosition.
  cbn [arr position limit bigEndian]. unfold CA_MESSAGE_HEADER_SIZE.
  f_equal; [|lia].
  rewrite written_app, Hwh.
  set (p := Z.to_nat (position sb)).
  set (n := length (written e ops)).
  replace (position sb + Z.of_nat (8 + n) - position sb - 8) with (Z.of_nat n) by lia.
  set (h4 := [202; CA_VERSION mod 256; (if big then 128 else 0) mod 256;
              command mod 256]).
  replace (Z.to_nat (position sb + (2 + 2)))
    with (length (take p (arr sb) ++ h4) + 0)%nat
    by (rewrite length_app, length_take; simpl; lia).
  rewrite <- !app_assoc.
  rewrite (app_assoc (take p (arr sb)) h4).
  rewrite list_inserts_app_r.
  rewrite list_inserts_0_r by (by rewrite !length_enc).
  by rewrite <- !app_assoc.
Qed.

Lemma message_bytes (command ensureCapacity : Z) (ops : list PutOp)
    (t : BlockingUDPTransport) :
  let sb := sendBuffer t in
  0 <= position sb →
  position sb + 8 + Z.of_nat (length (written big ops)) <= Z.of_nat (length (arr sb)) →
  bigEndian sb = big →
  sendBuffer (endMessage (writePayload ops
                (startMessage CA_VERSION big command ensureCapacity t)))
  = mk (take (Z.to_nat (position sb)) (arr sb)
        ++ frame_bytes (sent_frame CA_VERSION big command ops)
        ++ drop (Z.to_nat (position sb) + (8 + length (written big ops))) (arr sb))
       (position sb + 8 + Z.of_nat (length (written big ops)))
       (limit sb) big.
Proof.
  intros sb Hp Hl He.
  rewrite message_bytes_any_order by (fold sb; rewrite ?He; done).
  fold sb. rewrite He. do 3 f_equal.
  unfold frame_bytes, sent_frame. cbn [f_version f_flags f_command f_payload].
  rewrite to_int8_mod.
  replace ((if big then -128 else 0) <? 0) with big by (by destruct big).
  replace ((if big then -128 else 0) mod 256) with ((if big then 128 else 0) mod 256)
    by (by destruct big).
  done.
Qed.

Lemma slice_middle (pre k post : list Z) (i : Z) :
  i = Z.of_nat (length pre) → slice (pre ++ k ++ post) i (length k) = k.
Proof.
  intros ->. unfold slice. rewrite Nat2Z.id, drop_app_length.
  by rewrite take_app_length.
Qed.

(** C4.  [startMessage(command, capacity)], any sequence of payload
    writes and [endMessage] leave a frame whose length field, patched in
    at offset start + 4, is the number of payload bytes written (cursor
    minus start minus the 8 header bytes); the receive path decodes from
    these bytes the same command and that payload size. *)
Theorem header_round_trip
    (command ensureCapacity : Z) (ops : list PutOp) (t : BlockingUDPTransport) :
  let sb := sendBuffer t in
  let start := position sb in
  let n := Z.of_nat (length (written big ops)) in
  let sb' := sendBuffer (endMessage (writePayload ops
               (startMessage CA_VERSION big command ensureCapacity t))) in
  0 <= start →
  start + 8 + n <= Z.of_nat (length (arr sb)) →
  bigEndian sb = big →
  is_int8 command →
  getPosition sb' - start - CA_MESSAGE_HEADER_SIZE = n
  ∧ n = Z.of_nat (sum_list (put_size <$> ops))
  ∧ slice (arr sb') (start + 4) 4 = enc big 4 n
  ∧ slice (arr sb') start (Z.to_nat (8 + n))
    = frame_bytes (sent_frame CA_VERSION big command ops)
  ∧ ∀ (h : ResponseHandler) (fuel : nat) (from : osiSockAddr)
      (rt : BlockingUDPTransport) (junk : list Z),
      let rb := receiveBuffer rt in
      0 <= position rb →
      drop (Z.to_nat (position rb)) (arr rb)
        = slice (arr sb') start (Z.to_nat (8 + n)) ++ junk →
      limit rb = position rb + 8 + n →
      limit rb < 2 ^ 31 →
      (processBuffer h (S fuel) from rt).2 !! 0%nat
      = Some (mkCall from (to_int8 CA_VERSION) command n
                (mk (arr rb) (position rb + 8) (limit rb) big)).
Proof.
  intros sb start n sb' Hs Hl He Hc.
  assert (Hsb : sb' = mk (take (Z.to_nat start) (arr sb)
        ++ frame_bytes (sent_frame CA_VERSION big command ops)
        ++ drop (Z.to_nat start + (8 + length (written big ops))) (arr sb))
       (start + 8 + n) (limit sb) big)
    by (apply message_bytes; done).
  assert (Hlen : length (frame_bytes (sent_frame CA_VERSION big command ops))
                 = Z.to_nat (8 + n)).
  { rewrite length_frame_bytes. cbn [sent_frame f_payload]. lia. }
  assert (Hfr : slice (arr sb') start (Z.to_nat (8 + n))
                = frame_bytes (sent_frame CA_VERSION big command ops)).
  { rewrite Hsb. cbn [arr]. rewrite <- Hlen. apply slice_middle.
    rewrite length_take. lia. }
  split; [|split; [|split; [|split]]].
  - rewrite Hsb. unfold getPosition, CA_MESSAGE_HEADER_SIZE. cbn [position]. lia.
  - subst n. by rewrite length_written.
  - rewrite Hsb. cbn [arr]. unfold frame_bytes.
    cbn [sent_frame f_version f_flags f_command f_payload].
    replace ((if big then -128 else 0) <? 0) with big by (by destruct big).
    fold n.
    set (h4 := [202; to_int8 CA_VERSION mod 256; (if big then -128 else 0) mod 256;
                command mod 256]).
    rewrite <- !app_assoc. rewrite (app_assoc (take (Z.to_nat start) (arr sb)) h4).
    match goal with |- slice (?pre ++ ?k ++ ?post) _ _ = _ =>
      pose proof (slice_middle pre k post (start + 4)) as Hm
    end.
    rewrite length_enc in Hm. apply Hm.
    rewrite length_app, length_take. simpl. lia.
  - exact Hfr.
  - intros h fuel from rt junk rb Hp Hd Hlim H31. rewrite Hfr in Hd.
    unfold frame_bytes in Hd.
    cbn [sent_frame f_version f_flags f_command f_payload] in Hd.
    replace ((if big then -128 else 0) <? 0) with big in Hd by (by destruct big).
    fold n in Hd. rewrite <- !app_assoc in Hd.
    assert (Hfl : big = ((if big then -128 else 0) <? 0)) by (by destruct big).
    rewrite Hfl in Hd at 2.
    rewrite (processBuffer_frame h fuel from rt (to_int8 CA_VERSION)
               (if big then -128 else 0) command n
               (written big ops ++ junk));
      [|done|done|apply to_int8_range|by destruct big|done| |exact Hd
       |fold rb; lia|fold rb; lia];
      [|fold rb in H31; unfold is_int32; change (2 ^ 31) with 2147483648 in H31; lia].
    cbv zeta. fold rb. rewrite <- Hfl.
    destruct (h from _ _ _ _) as [t'|t']; [|done].
    by destruct (processBuffer h fuel from _) as [[e tf] cs].
Qed.

End RoundTrip.

(** ** The response handlers *)

Section HandlerFacts.

Variable CA_VERSION : Z.
Variable EPICS_BYTE_ORDER_BIG : bool.
Variable sendto : osiSockAddr -> list Z -> Z.
Variable debug : bool.

Local Abbreviation table0 := (handlerTable CA_VERSION EPICS_BYTE_ORDER_BIG sendto debug).
Local Abbreviation enqueue := (enqueueSendRequest sendto).
Local Abbreviation echoSender := (EchoTransportSender_send CA_VERSION EPICS_BYTE_ORDER_BIG).

Lemma send_to_wire (A : osiSockAddr) (t : BlockingUDPTransport) :
  wire (send_to sendto A t).2
  = wire t ++ [(A, take (Z.to_nat (ByteBuffer.position (sendBuffer t)))
                     (ByteBuffer.arr (sendBuffer t)))]
  ∧ sendTo (send_to sendto A t).2 = sendTo t
  ∧ sendToEnabled (send_to sendto A t).2 = sendToEnabled t.
Proof. unfold send_to, sendto_call. by destruct (sendto _ _ <? 0). Qed.

Lemma echo_enqueue_wire (A : osiSockAddr) (t : BlockingUDPTransport) :
  (8 ≤ length (ByteBuffer.arr (sendBuffer t)))%nat →
  wire (enqueue (echoSender A) t)
  = wire t ++ [(A, echo_datagram CA_VERSION EPICS_BYTE_ORDER_BIG)]
  ∧ sendTo (enqueue (echoSender A) t) = A
  ∧ sendToEnabled (enqueue (echoSender A) t) = true.
Proof.
  intros Hlen.
  set (t2 := with_sendBuffer (ByteBuffer.clear (sendBuffer t))
               (with_sendTo (sendTo t) false t)).
  set (t4 := endMessage (setRecipient A
               (startMessage CA_VERSION EPICS_BYTE_ORDER_BIG CMD_ECHO 0 t2))).
  assert (Hrun : enqueue (echoSender A) t = (send_to sendto A t4).2) by reflexivity.
  assert (Hsb : sendBuffer t4
                = sendBuffer (endMessage (writePayload []
                    (startMessage CA_VERSION EPICS_BYTE_ORDER_BIG CMD_ECHO 0 t2))))
    by reflexivity.
  assert (Hw : wire t4 = wire t) by reflexivity.
  assert (Hto : sendTo t4 = A ∧ sendToEnabled t4 = true) by (by split).
  rewrite Hrun. destruct (send_to_wire A t4) as (-> & -> & ->).
  split; [|exact Hto]. rewrite Hw, Hsb. do 3 f_equal.
  rewrite message_bytes_any_order; cbn [sendBuffer with_sendBuffer t2 ByteBuffer.clear
    ByteBuffer.position ByteBuffer.arr ByteBuffer.bigEndian ByteBuffer.limit
    written fmap list_fmap concat length]; [|done|lia].
  rewrite enc_4_0. unfold echo_datagram.
  replace ((if EPICS_BYTE_ORDER_BIG then 128 else 0) mod 256)
    with (if EPICS_BYTE_ORDER_BIG then 128 else 0) by (by destruct EPICS_BYTE_ORDER_BIG).
  reflexivity.
Qed.

(** C6.  The dispatcher hands a frame of command 2 from [A] to the echo
    handler, which enqueues one send request; that request writes an
    echo message with an empty payload, names [A] as recipient, and one
    datagram, the eight header bytes with command 2 and length 0, goes
    out to [A]. *)
Theorem echo_frame_is_answered_once
    (A : osiSockAddr) (version payloadSize : Z) (t : BlockingUDPTransport) :
  (8 ≤ length (ByteBuffer.arr (sendBuffer t)))%nat →
  let t0 := AbstractResponseHandler_handleResponse debug A version CMD_ECHO payloadSize t in
  let t' := enqueue (echoSender A) t0 in
  ServerResponseHandler_handleResponse table0 A version CMD_ECHO payloadSize t = Ok t'
  ∧ echoSender A (with_sendBuffer (ByteBuffer.clear (sendBuffer t0)) (with_sendTo (sendTo t0) false t0))
    = Ok (setRecipient A (startMessage CA_VERSION EPICS_BYTE_ORDER_BIG CMD_ECHO 0
            (with_sendBuffer (ByteBuffer.clear (sendBuffer t0)) (with_sendTo (sendTo t0) false t0))))
  ∧ wire t' = wire t ++ [(A, (echo_datagram CA_VERSION EPICS_BYTE_ORDER_BIG))]
  ∧ sendTo t' = A ∧ sendToEnabled t' = true.
Proof.
  intros Hlen t0 t'.
  assert (Hlen0 : (8 ≤ length (ByteBuffer.arr (sendBuffer t0)))%nat).
  { subst t0. unfold AbstractResponseHandler_handleResponse. by destruct debug. }
  assert (Hw : wire t0 = wire t).
  { subst t0. unfold AbstractResponseHandler_handleResponse. by destruct debug. }
  destruct (echo_enqueue_wire A t0 Hlen0) as (Hwire & Hto & Hen).
  split; [done|]. split; [done|]. rewrite <- Hw. done.
Qed.

(** C5.  A connection-validation frame whose payload starts with R, S
    and P (4, 4 and 2 bytes in the buffer's byte order) sets the peer's
    receive-buffer size to R, its socket receive-buffer size to S and its
    minor revision to the header's version byte.  The cursor moves past
    R and S only, and nothing of the outcome depends on P. *)
Theorem connection_validation_sets_peer_parameters
    (responseFrom : osiSockAddr) (version command payloadSize : Z)
    (t : BlockingUDPTransport) (R S P : Z) (rest : list Z) :
  let rb := receiveBuffer t in
  0 <= ByteBuffer.position rb →
  10 <= ByteBuffer.getRemaining rb →
  drop (Z.to_nat (ByteBuffer.position rb)) (ByteBuffer.arr rb)
    = enc (ByteBuffer.bigEndian rb) 4 R ++ enc (ByteBuffer.bigEndian rb) 4 S
      ++ enc (ByteBuffer.bigEndian rb) 2 P ++ rest →
  is_int32 R → is_int32 S →
  let t0 := AbstractResponseHandler_handleResponse debug responseFrom version
              command payloadSize t in
  let t' := setRemoteMinorRevision version
              (setRemoteTransportSocketReceiveBufferSize S
                (setRemoteTransportReceiveBufferSize R
                  (with_receiveBuffer
                     (ByteBuffer.setPosition rb (ByteBuffer.position rb + 8)) t0))) in
  ConnectionValidationHandler_handleResponse debug responseFrom version
    command payloadSize t = Ok t'
  ∧ remoteTransportReceiveBufferSize t' = R
  ∧ remoteTransportSocketReceiveBufferSize t' = S
  ∧ remoteMinorRevision t' = version.
Proof.
  intros rb Hpos Hrem Hd HR HS t0 t'. split; [|done]. subst t'.
  assert (Hrb : receiveBuffer t0 = rb).
  { subst t0. unfold AbstractResponseHandler_handleResponse. by destruct debug. }
  unfold ConnectionValidationHandler_handleResponse. fold t0.
  unfold ensureData. rewrite Hrb.
  destruct (Z.ltb_spec (ByteBuffer.getRemaining rb) (2 * 4 + 2)) as [|_]; [lia|].
  rewrite Hrb. unfold ByteBuffer.getInt, ByteBuffer.get.
  assert (H1 : slice (ByteBuffer.arr rb) (ByteBuffer.position rb) 4
               = enc (ByteBuffer.bigEndian rb) 4 R).
  { pose proof (slice_of_drop (ByteBuffer.arr rb) (ByteBuffer.position rb) []
                  (enc (ByteBuffer.bigEndian rb) 4 R)
                  (enc (ByteBuffer.bigEndian rb) 4 S
                   ++ enc (ByteBuffer.bigEndian rb) 2 P ++ rest) Hpos Hd) as Hs.
    rewrite length_enc in Hs. simpl in Hs. by rewrite Z.add_0_r in Hs. }
  assert (H2 : slice (ByteBuffer.arr rb) (ByteBuffer.position rb + 4) 4
               = enc (ByteBuffer.bigEndian rb) 4 S).
  { pose proof (slice_of_drop (ByteBuffer.arr rb) (ByteBuffer.position rb)
                  (enc (ByteBuffer.bigEndian rb) 4 R)
                  (enc (ByteBuffer.bigEndian rb) 4 S)
                  (enc (ByteBuffer.bigEndian rb) 2 P ++ rest) Hpos Hd) as Hs.
    by rewrite !length_enc in Hs. }
  rewrite H1. cbn [receiveBuffer with_receiveBuffer setRemoteTransportReceiveBufferSize
                   ByteBuffer.setPosition ByteBuffer.arr ByteBuffer.position
                   ByteBuffer.bigEndian ByteBuffer.limit].
  change (Z.of_nat 4) with 4. rewrite H2.
  rewrite !dec_enc_int32 by done.
  replace (ByteBuffer.position rb + 4 + 4) with (ByteBuffer.position rb + 8) by lia.
  destruct t0; reflexivity.
Qed.

End HandlerFacts.

Section DispatcherFacts.

Variable CA_VERSION : Z.
Variable EPICS_BYTE_ORDER_BIG : bool.
Variable sendto : osiSockAddr -> list Z -> Z.
Variable debug : bool.

Local Abbreviation table0 := (handlerTable CA_VERSION EPICS_BYTE_ORDER_BIG sendto debug).

Lemma handlerTable_length : length table0 = 28%nat.
Proof. reflexivity. Qed.

Lemma handlerTable_bad (i : nat) :
  (3 ≤ i < 28)%nat → table0 !! i = Some (BadResponse_handleResponse debug).
Proof.
  intros Hi. unfold handlerTable.
  do 3 (destruct i as [|i]; [lia|]).
  change (replicate 25 (BadResponse_handleResponse debug) !! i
          = Some (BadResponse_handleResponse debug)).
  apply lookup_replicate_2. lia.
Qed.

(** C8.  A command below 0 or at least 28 is logged at minor severity and
    nothing else happens: the outcome does not depend on the table, the
    payload buffer keeps its cursor and the transport its state.  A
    command from 0 to 27 is handed to the table's slot of that index,
    and every such slot of the server's table holds a handler. *)
Theorem dispatcher_command_range
    (table : list ResponseHandler) (responseFrom : osiSockAddr)
    (version command payloadSize : Z) (t : BlockingUDPTransport) :
  (command < 0 ∨ HANDLER_TABLE_LENGTH <= command →
     ServerResponseHandler_handleResponse table responseFrom version command payloadSize t
     = Ok (with_errlog (errlog t ++ invalid_command_log command payloadSize t) t))
  ∧ (0 <= command < HANDLER_TABLE_LENGTH →
     ServerResponseHandler_handleResponse table responseFrom version command payloadSize t
     = match table !! Z.to_nat command with
       | Some handler => handler responseFrom version command payloadSize t
       | None => Thrown t
       end)
  ∧ (0 <= command < HANDLER_TABLE_LENGTH →
     ∃ handler, table0 !! Z.to_nat command = Some handler
       ∧ ServerResponseHandler_handleResponse table0 responseFrom version command payloadSize t
         = handler responseFrom version command payloadSize t).
Proof.
  unfold ServerResponseHandler_handleResponse, HANDLER_TABLE_LENGTH.
  split; [|split].
  - intros Hc.
    replace ((command <? 0) || (command >=? 28)) with true
      by (symmetry; apply orb_true_iff; lia).
    unfold log, invalid_command_log. simpl. by rewrite <- app_assoc.
  - intros Hc.
    replace ((command <? 0) || (command >=? 28)) with false
      by (symmetry; apply orb_false_iff; lia).
    done.
  - intros Hc.
    replace ((command <? 0) || (command >=? 28)) with false
      by (symmetry; apply orb_false_iff; lia).
    destruct (table0 !! Z.to_nat command) as [h|] eqn:E; [eauto|].
    apply lookup_ge_None in E. change (28 ≤ Z.to_nat command)%nat in E. lia.
Qed.

End DispatcherFacts.

(** The server's dispatcher is a handler of the kind the receive path
    is verified for. *)
Section ServerHandler.

Import ByteBuffer.

Variable CA_VERSION : Z.
Variable EPICS_BYTE_ORDER_BIG : bool.
Variable sendto : osiSockAddr -> list Z -> Z.
Variable debug : bool.

Local Abbreviation table0 := (handlerTable CA_VERSION EPICS_BYTE_ORDER_BIG sendto debug).

Lemma abstract_receiveBuffer from v c n t :
  receiveBuffer (AbstractResponseHandler_handleResponse debug from v c n t)
  = receiveBuffer t.
Proof. unfold AbstractResponseHandler_handleResponse. by destruct debug. Qed.

Lemma sendto_call_receiveBuffer a b t :
  receiveBuffer (sendto_call sendto a b t).2 = receiveBuffer t.
Proof. unfold sendto_call. by destruct (sendto _ _ <? 0). Qed.

Lemma send_receiveBuffer t : receiveBuffer (send sendto t).2 = receiveBuffer t.
Proof.
  unfold send. destruct (sendAddresses t) as [addrs|]; [|done].
  set (b := flip (sendBuffer t)).
  assert (Hgen : ∀ acc, receiveBuffer
            (foldl (λ acc a, let '(ok, t') := sendto_call sendto a b acc.2 in
                             (acc.1 && ok, t')) acc addrs).2
          = receiveBuffer acc.2).
  { induction addrs as [|a addrs IH]; intros acc; [done|].
    cbn [foldl]. rewrite IH.
    pose proof (sendto_call_receiveBuffer a b acc.2) as Hs.
    by destruct (sendto_call sendto a b acc.2). }
  by rewrite Hgen.
Qed.

Lemma echo_receiveBuffer A t :
  receiveBuffer (enqueueSendRequest sendto
                   (EchoTransportSender_send CA_VERSION EPICS_BYTE_ORDER_BIG A) t)
  = receiveBuffer t.
Proof.
  unfold enqueueSendRequest, EchoTransportSender_send.
  cbv beta iota zeta.
  match goal with |- context [if negb (sendToEnabled ?x) then _ else _] =>
    change (sendToEnabled x) with true
  end.
  cbn [negb]. unfold send_to. rewrite sendto_call_receiveBuffer. done.
Qed.

Lemma server_keeps_bytes :
  keeps_bytes (ServerResponseHandler_handleResponse table0).
Proof.
  intros from v c n t t'. unfold ServerResponseHandler_handleResponse.
  destruct ((c <? 0) || (c >=? HANDLER_TABLE_LENGTH)).
  { intros [= <-]. done. }
  destruct (Z.to_nat c) as [|[|[|i]]].
  - cbn [handlerTable app lookup list_lookup]. unfold NoopResponse_handleResponse.
    intros [= <-]. by rewrite abstract_receiveBuffer.
  - cbn [handlerTable app lookup list_lookup].
    unfold ConnectionValidationHandler_handleResponse, ensureData.
    destruct (_ <? _); [done|]. unfold getInt, get. cbv beta iota zeta.
    intros [= <-]. cbn. by rewrite abstract_receiveBuffer.
  - cbn [handlerTable app lookup list_lookup]. unfold EchoHandler_handleResponse.
    intros [= <-]. by rewrite echo_receiveBuffer, abstract_receiveBuffer.
  - change (table0 !! S (S (S i)))
      with (replicate 25 (BadResponse_handleResponse debug) !! i).
    destruct (replicate 25 (BadResponse_handleResponse debug) !! i) as [hd|] eqn:E;
      [|done].
    apply lookup_replicate in E as [-> _]. unfold BadResponse_handleResponse.
    intros [= <-]. cbn. by rewrite abstract_receiveBuffer.
Qed.


End ServerHandler.



(** ** The ignore list of the receive loop *)

Section IgnoreFacts.

Variable responseHandler : ResponseHandler.

Lemma ignoreScan_spec l from :
  ignoreScan l from = true ↔ ∃ a, a ∈ l ∧ sin_addr a = sin_addr from.
Proof.
  induction l as [|a l IH]; simpl.
  - split; [done|]. intros (a & Ha & _). by apply elem_of_nil in Ha.
  - destruct (Z.eqb_spec (sin_addr a) (sin_addr from)) as [E|N].
    + split; [|done]. intros _. exists a. split; [left|done].
    + rewrite IH. split.
      * intros (b & Hb & E). exists b. split; [by right|done].
      * intros (b & Hb & E). apply elem_of_cons in Hb as [->|Hb]; [done|eauto].
Qed.

(** C9.  The receive-side filter looks at the source's [s_addr] only:
    a source is ignored exactly when an entry of the ignore list has the
    same [s_addr], whatever its port and family.  Without a list no source
    is ignored.  A datagram from a source that is not ignored, be it that
    there is no list or that no entry has its [s_addr], goes to
    [processBuffer]; a datagram from an ignored source is dropped before
    [processBuffer], and no handler runs. *)
Theorem ignore_filter_compares_s_addr_only
    (fuel : nat) (r : RecvFrom) (t : BlockingUDPTransport) :
  (isIgnored (fromAddress r) t = true
     ↔ ∃ l a, ignoredAddresses t = Some l ∧ a ∈ l
              ∧ sin_addr a = sin_addr (fromAddress r))
  ∧ (∀ family port,
       isIgnored (mkAddr family port (sin_addr (fromAddress r))) t
       = isIgnored (fromAddress r) t)
  ∧ (ignoredAddresses t = None → ∀ from, isIgnored from t = false)
  ∧ (0 < bytesRead r → isIgnored (fromAddress r) t = false →
       processRead_iteration responseHandler fuel r t
       = let '(e, t', cs) :=
           processBuffer responseHandler fuel (fromAddress r)
             (with_receiveBuffer
                (ByteBuffer.flip (ByteBuffer.setPosition (received r t) (bytesRead r)))
                t) in
         (match e with
          | Returned _ => Continue | Raised => Break | Unfinished => Stuck
          end,
          match e with Raised => close_nowait t' | _ => t' end, cs))
  ∧ (0 < bytesRead r → isIgnored (fromAddress r) t = true →
       processRead_iteration responseHandler fuel r t
       = (Continue, with_receiveBuffer (received r t) t, [])).
Proof.
  assert (Hspec : ∀ from, isIgnored from t = true
              ↔ ∃ l a, ignoredAddresses t = Some l ∧ a ∈ l
                       ∧ sin_addr a = sin_addr from).
  { intros from. unfold isIgnored.
    destruct (ignoredAddresses t) as [l|].
    - rewrite ignoreScan_spec. split.
      + intros (a & Ha & E). eauto.
      + intros (l' & a & [= <-] & Ha & E). eauto.
    - split; [done|]. by intros (l & a & ? & _). }
  split; [apply Hspec|]. split; [|split; [|split]].
  - intros family port.
    destruct (isIgnored (fromAddress r) t) eqn:E.
    + apply Hspec. apply Hspec in E. exact E.
    + apply not_true_is_false. intros E'. apply Hspec in E'. simpl in E'.
      apply Hspec in E'. congruence.
  - intros Hn from. unfold isIgnored. by rewrite Hn.
  - intros Hb Hi. unfold processRead_iteration.
    replace (bytesRead r >? 0) with true by (symmetry; apply Z.gtb_lt; lia).
    fold (received r t).
    assert (isIgnored (fromAddress r) (with_receiveBuffer (received r t) t) = false)
      as -> by exact Hi.
    destruct (processBuffer _ _ _ _) as [[e t'] cs]. by destruct e.
  - intros Hb Hi. unfold processRead_iteration.
    replace (bytesRead r >? 0) with true by (symmetry; apply Z.gtb_lt; lia).
    fold (received r t).
    assert (isIgnored (fromAddress r) (with_receiveBuffer (received r t) t) = true)
      as -> by exact Hi.
    done.
Qed.

End IgnoreFacts.

(** ** The transport registry *)
Module RegistryFacts.
Section Facts.

Import TransportRegistry.
Context {AddrKey : Type} `{Countable AddrKey}.
Implicit Types (r : t (AddrKey := AddrKey)) (tr : Transport (AddrKey := AddrKey)).

Lemma stored_lookup r a p :
  stored r !! (a, p) = transports r !! a ≫= (.!! p).
Proof. unfold stored. apply lookup_map_uncurry. Qed.

Lemma stored_put tr r :
  stored (put tr r) = <[(getRemoteAddress tr, getPriority tr) := tr]> (stored r).
Proof.
  apply map_eq. intros [a p]. rewrite stored_lookup.
  destruct (decide ((getRemoteAddress tr, getPriority tr) = (a, p))) as [E|N].
  - injection E as <- <-. rewrite lookup_insert_eq. unfold put.
    destruct (transports r !! getRemoteAddress tr) as [m|]; simpl;
      rewrite lookup_insert_eq; simpl; by rewrite lookup_insert_eq.
  - rewrite lookup_insert_ne by done. rewrite stored_lookup. unfold put.
    destruct (decide (getRemoteAddress tr = a)) as [<-|Na].
    + assert (getPriority tr ≠ p) by congruence.
      destruct (transports r !! getRemoteAddress tr) as [m|] eqn:Em; simpl;
        rewrite lookup_insert_eq; simpl; rewrite lookup_insert_ne by done; done.
    + destruct (transports r !! getRemoteAddress tr) as [m|]; simpl;
        by rewrite lookup_insert_ne.
Qed.

Lemma stored_remove tr r :
  stored (snd (remove tr r))
  = delete (getRemoteAddress tr, getPriority tr) (stored r).
Proof.
  apply map_eq. intros [a p]. rewrite stored_lookup. unfold remove.
  destruct (transports r !! getRemoteAddress tr) as [m|] eqn:Em; simpl.
  2:{ symmetry. rewrite delete_id; [apply stored_lookup|].
      by rewrite stored_lookup, Em. }
  destruct (m !! getPriority tr) as [x|] eqn:Ex; simpl.
  2:{ symmetry. rewrite delete_id; [apply stored_lookup|].
      rewrite stored_lookup, Em. done. }
  destruct (decide (getRemoteAddress tr = a)) as [<-|Na].
  - destruct (decide (getPriority tr = p)) as [<-|Np].
    + rewrite lookup_delete_eq.
      case_decide; [by rewrite lookup_delete_eq|].
      rewrite lookup_insert_eq. simpl. by rewrite lookup_delete_eq.
    + rewrite lookup_delete_ne by congruence. rewrite stored_lookup, Em. simpl.
      case_decide as Hs.
      * rewrite lookup_delete_eq. simpl.
        apply map_size_empty_inv in Hs.
        rewrite <- (lookup_delete_ne m (getPriority tr) p) by done.
        by rewrite Hs, lookup_empty.
      * rewrite lookup_insert_eq. simpl. by rewrite lookup_delete_ne.
  - rewrite lookup_delete_ne by congruence. rewrite stored_lookup.
    case_decide; [by rewrite lookup_delete_ne|by rewrite lookup_insert_ne].
Qed.

Lemma consistent_create : consistent (create (AddrKey := AddrKey)).
Proof.
  split.
  - unfold numberOfActiveTransports, stored, create, map_uncurry. simpl.
    by rewrite map_fold_empty, map_size_empty.
  - intros a m. unfold create. simpl. by rewrite lookup_empty.
Qed.

Lemma consistent_put tr r : consistent r → consistent (put tr r).
Proof.
  intros [Hc Hne]. split.
  - rewrite stored_put. unfold numberOfActiveTransports in *.
    assert (Hl := stored_lookup r (getRemoteAddress tr) (getPriority tr)).
    unfold put.
    destruct (transports r !! getRemoteAddress tr) as [m|] eqn:Em; simpl in *.
    + destruct (m !! getPriority tr) as [x|] eqn:Ex; simpl.
      * rewrite map_size_insert_Some by (by rewrite Hl; eauto). done.
      * rewrite map_size_insert_None by done. lia.
    + rewrite map_size_insert_None by done. lia.
  - intros a m. unfold put.
    destruct (transports r !! getRemoteAddress tr) as [m0|] eqn:Em; simpl;
      (destruct (decide (getRemoteAddress tr = a)) as [<-|Na];
       [ rewrite lookup_insert_eq; intros [= <-]; apply insert_non_empty
       | rewrite lookup_insert_ne by done; apply Hne ]).
Qed.

Lemma consistent_remove tr r : consistent r → consistent (snd (remove tr r)).
Proof.
  intros [Hc Hne]. split.
  - rewrite stored_remove. unfold numberOfActiveTransports in *.
    assert (Hl := stored_lookup r (getRemoteAddress tr) (getPriority tr)).
    unfold remove.
    destruct (transports r !! getRemoteAddress tr) as [m|] eqn:Em; simpl in *.
    + destruct (m !! getPriority tr) as [x|] eqn:Ex; simpl.
      * assert (Hs := map_size_delete_Some
                        (getRemoteAddress tr, getPriority tr) (stored r)).
        rewrite Hl in Hs. specialize (Hs (ltac:(eauto))).
        assert (size (stored r) ≠ 0%nat).
        { rewrite map_size_non_empty_iff. intros E. rewrite E in Hl.
          by rewrite lookup_empty in Hl. }
        lia.
      * rewrite map_size_delete_None by done. done.
    + rewrite map_size_delete_None by done. done.
  - intros a m. unfold remove.
    destruct (transports r !! getRemoteAddress tr) as [m0|] eqn:Em; simpl;
      [|apply Hne].
    destruct (m0 !! getPriority tr) as [x|] eqn:Ex; simpl; [|apply Hne].
    case_decide as Hs.
    + destruct (decide (getRemoteAddress tr = a)) as [<-|Na].
      * by rewrite lookup_delete_eq.
      * rewrite lookup_delete_ne by done. apply Hne.
    + destruct (decide (getRemoteAddress tr = a)) as [<-|Na].
      * rewrite lookup_insert_eq. intros [= <-].
        by apply map_size_non_empty_iff.
      * rewrite lookup_insert_ne by done. apply Hne.
Qed.

Lemma consistent_apply r (o : Op (AddrKey := AddrKey)) : consistent r → consistent (apply r o).
Proof.
  destruct o; simpl.
  - apply consistent_put.
  - apply consistent_remove.
  - intros _. apply consistent_create.
Qed.

Lemma consistent_foldl (ops : list (Op (AddrKey := AddrKey))) r : consistent r → consistent (foldl apply r ops).
Proof.
  revert r. induction ops as [|o ops IH]; intros r Hr; simpl; [done|].
  apply IH, consistent_apply, Hr.
Qed.

(** C2.  After any sequence of [put], [remove] and [clear] on a fresh
    registry, [numberOfActiveTransports()] is the number of distinct
    (address, priority) pairs stored, and no address is bound to an empty
    priority map. *)
Theorem registry_count_and_no_empty_entry (ops : list (Op (AddrKey := AddrKey))) :
  numberOfActiveTransports (run ops) = Z.of_nat (size (stored (run ops)))
  ∧ (∀ a m, transports (run ops) !! a = Some m → m ≠ ∅)
  ∧ (∀ a p, is_Some (stored (run ops) !! (a, p))
            ↔ ∃ m, transports (run ops) !! a = Some m ∧ is_Some (m !! p)).
Proof.
  destruct (consistent_foldl ops create consistent_create) as [Hc Hne].
  split; [exact Hc|]. split; [exact Hne|].
  intros a p. rewrite stored_lookup.
  destruct (transports (run ops) !! a) as [m|]; simpl.
  - split; [eauto|]. by intros (m' & [= <-] & Hp).
  - split; [by intros [? ?]|]. by intros (m' & ? & _).
Qed.

End Facts.
End RegistryFacts.

(** ** The beacon emitter's cadence *)
Module BeaconFacts.

Import BeaconEmitter.

Lemma send_sequenceID e :
  beaconSequenceID (send e) = to_int16 (beaconSequenceID e + 1).
Proof. unfold send, reschedule; simpl. by case_decide. Qed.

Lemma send_params e :
  fastBeaconPeriod (send e) = fastBeaconPeriod e
  ∧ slowBeaconPeriod (send e) = slowBeaconPeriod e
  ∧ beaconCountLimit (send e) = beaconCountLimit e.
Proof. unfold send, reschedule; simpl. by case_decide. Qed.

Lemma send_scheduled e :
  positive_periods e →
  scheduled (send e)
  = scheduled e
    ++ [if to_int16 (beaconSequenceID e + 1) >=? beaconCountLimit e
        then slowBeaconPeriod e else fastBeaconPeriod e].
Proof.
  intros [Hf Hs]. unfold send, reschedule; simpl.
  destruct (to_int16 (beaconSequenceID e + 1) >=? beaconCountLimit e);
    by case_decide.
Qed.

Lemma beacons_S n e : beacons (S n) e = send (beacons n e).
Proof. reflexivity. Qed.

Lemma beacons_params n e :
  fastBeaconPeriod (beacons n e) = fastBeaconPeriod e
  ∧ slowBeaconPeriod (beacons n e) = slowBeaconPeriod e
  ∧ beaconCountLimit (beacons n e) = beaconCountLimit e.
Proof.
  induction n as [|n (IHf & IHs & IHl)]; [done|].
  rewrite beacons_S. destruct (send_params (beacons n e)) as (-> & -> & ->).
  done.
Qed.

Lemma beacons_sequenceID n e :
  beaconSequenceID (beacons (S n) e)
  = to_int16 (beaconSequenceID e + Z.of_nat (S n)).
Proof.
  induction n as [|n IH]; rewrite beacons_S, send_sequenceID; [done|].
  rewrite IH, to_int16_idemp_add. f_equal. lia.
Qed.

Lemma beacons_positive n e : positive_periods e → positive_periods (beacons n e).
Proof.
  unfold positive_periods.
  by destruct (beacons_params n e) as (-> & -> & _).
Qed.

Lemma send_choice n e :
  (if to_int16 (beaconSequenceID (beacons n e) + 1)
      >=? beaconCountLimit (beacons n e)
   then slowBeaconPeriod (beacons n e) else fastBeaconPeriod (beacons n e))
  = choice e (S n).
Proof.
  unfold choice. destruct (beacons_params n e) as (-> & -> & ->).
  destruct n as [|n].
  - done.
  - rewrite beacons_sequenceID, to_int16_idemp_add.
    by replace (beaconSequenceID e + Z.of_nat (S n) + 1)
      with (beaconSequenceID e + Z.of_nat (S (S n))) by lia.
Qed.

Lemma beacons_scheduled n e :
  positive_periods e →
  scheduled (beacons n e) = scheduled e ++ (choice e <$> seq 1 n).
Proof.
  intros Hp. induction n as [|n IH].
  - simpl. by rewrite app_nil_r.
  - rewrite beacons_S, send_scheduled by by apply beacons_positive.
    rewrite IH, send_choice, seq_S, fmap_app, app_assoc. done.
Qed.

Lemma decision_choice k e :
  positive_periods e → (1 ≤ k)%nat → decision k e = Some (choice e k).
Proof.
  intros Hp Hk. unfold decision. rewrite beacons_scheduled by done.
  rewrite lookup_app_r by lia. rewrite list_lookup_fmap.
  replace (length (scheduled e) + k - 1 - length (scheduled e))%nat
    with (k - 1)%nat by lia.
  rewrite lookup_seq_lt by lia. simpl. do 2 f_equal. lia.
Qed.

Lemma start_scheduled e : scheduled (start e) = scheduled e ++ [Q2Qc 0].
Proof. reflexivity. Qed.

Lemma start_positive e : positive_periods e → positive_periods (start e).
Proof. done. Qed.

(** C3 (amended).  For an emitter whose sequence id is 0 and whose periods
    are positive: each of the first [beaconCountLimit - 1] beacons has the
    next callback scheduled after [fastBeaconPeriod], and every beacon from
    the [beaconCountLimit]-th up to the 32767-th has it scheduled after
    [slowBeaconPeriod].  After [start()], whose zero-delay request is the
    first scheduling decision, the decision made by the [k]-th beacon is
    the [(k + 1)]-th: the first slow one is the [(beaconCountLimit + 1)]-th. *)
Theorem beacon_cadence (e : t) (k : nat) :
  beaconSequenceID e = 0 →
  positive_periods e →
  1 <= Z.of_nat k <= 32767 →
  (Z.of_nat k < beaconCountLimit e →
     decision k e = Some (fastBeaconPeriod e))
  ∧ (beaconCountLimit e <= Z.of_nat k →
     decision k e = Some (slowBeaconPeriod e))
  ∧ scheduled (beacons k (start e)) !! length (scheduled e) = Some (Q2Qc 0)
  ∧ scheduled (beacons k (start e)) !! (length (scheduled e) + k)%nat
    = decision k e.
Proof.
  intros Hs Hp Hk. rewrite decision_choice by (done || lia).
  unfold choice. rewrite Hs, Z.add_0_l, to_int16_small by lia.
  split; [|split; [|split]].
  - intros Hl.
    destruct (Z.geb_spec (Z.of_nat k) (beaconCountLimit e)); [lia|done].
  - intros Hl.
    destruct (Z.geb_spec (Z.of_nat k) (beaconCountLimit e)); [done|lia].
  - rewrite beacons_scheduled, start_scheduled by by apply start_positive.
    rewrite <- app_assoc, lookup_app_r by lia.
    by rewrite Nat.sub_diag.
  - pose proof (decision_choice k (start e) (start_positive e Hp)) as Hd.
    unfold decision in Hd. rewrite start_scheduled, length_app in Hd.
    cbn [length] in Hd.
    replace (length (scheduled e) + 1 + k - 1)%nat
      with (length (scheduled e) + k)%nat in Hd by lia.
    rewrite Hd by lia. unfold choice. cbn [start scheduleAfterDelay
      beaconSequenceID beaconCountLimit slowBeaconPeriod fastBeaconPeriod].
    by rewrite Hs, Z.add_0_l, to_int16_small by lia.
Qed.

End BeaconFacts.

(** * Further properties of the code *)

(** ** The send path *)

Section SendFacts.

Import ByteBuffer.

Variable CA_VERSION : Z.
Variable EPICS_BYTE_ORDER_BIG : bool.
Variable sendto : osiSockAddr -> list Z -> Z.

Local Abbreviation big := EPICS_BYTE_ORDER_BIG.

Lemma with_nothing t :
  with_errlog (errlog t ++ []) (with_wire (wire t ++ []) t) = t.
Proof. destruct t. unfold with_errlog, with_wire. simpl. by rewrite !app_nil_r. Qed.

Lemma send_loop (b : ByteBuffer) (addrs : list osiSockAddr)
    (acc : bool * BlockingUDPTransport) :
  let dgram := take (Z.to_nat (limit b)) (arr b) in
  let failed := filter (λ a, sendto a dgram < 0) addrs in
  foldl (λ acc a, let '(ok, t') := sendto_call sendto a b acc.2 in (acc.1 && ok, t'))
    acc addrs
  = (acc.1 && bool_decide (failed = []),
     with_errlog (errlog acc.2 ++ replicate (length failed) sendto_error)
       (with_wire (wire acc.2 ++ ((., dgram) <$> addrs)) acc.2)).
Proof.
  intros dgram failed. subst failed. revert acc.
  induction addrs as [|a addrs IH]; intros [ok t].
  - cbn [foldl fst snd]. rewrite filter_nil. cbn [length replicate fmap list_fmap].
    by rewrite with_nothing, andb_true_r.
  - cbn [foldl fst snd]. rewrite IH. unfold sendto_call, getLimit, getArray.
    fold dgram. rewrite filter_cons.
    destruct (Z.ltb_spec (sendto a dgram) 0) as [Hf|Hs].
    + rewrite decide_True by done. cbn [fst snd length replicate].
      rewrite andb_false_r. cbn [andb].
      rewrite (bool_decide_eq_false_2 (a :: _ = _)) by done.
      rewrite andb_false_r. f_equal.
      destruct t. unfold log, with_errlog, with_wire. cbn.
      by rewrite <- !app_assoc.
    + rewrite decide_False by lia. cbn [fst snd]. rewrite andb_true_r. f_equal.
      destruct t. unfold with_errlog, with_wire. cbn. by rewrite <- !app_assoc.
Qed.

(** X2.  [send(buffer)]: without send addresses it returns false and
    touches nothing, not even the buffer.  With send addresses it flips
    the buffer once and calls [sendto] once for every address, in order,
    all with the same bytes (the buffer up to its old cursor); a failing
    [sendto] is logged and does not keep the later addresses from being
    tried; the result is true exactly when no [sendto] failed. *)
Theorem send_reaches_every_address (t : BlockingUDPTransport) :
  match sendAddresses t with
  | None => send sendto t = (false, t)
  | Some addrs =>
      let dgram := take (Z.to_nat (position (sendBuffer t))) (arr (sendBuffer t)) in
      let failed := filter (λ a, sendto a dgram < 0) addrs in
      send sendto t
      = (bool_decide (failed = []),
         with_errlog (errlog t ++ replicate (length failed) sendto_error)
           (with_wire (wire t ++ ((., dgram) <$> addrs))
              (with_sendBuffer (flip (sendBuffer t)) t)))
  end.
Proof.
  unfold send. destruct (sendAddresses t) as [addrs|]; [|done].
  cbv zeta. by rewrite send_loop.
Qed.

(** X3.  [enqueueSendRequest] of a sender that writes one message and
    names no recipient hands the finished frame, header with the patched
    length and payload, to [sendto] once for every send address; the
    recipient a previous request may have set is forgotten.  Without send
    addresses nothing goes out. *)
Theorem broadcast_goes_to_every_send_address
    (command ensureCapacity : Z) (ops : list PutOp) (t : BlockingUDPTransport) :
  8 + Z.of_nat (length (written big ops)) <= Z.of_nat (length (arr (sendBuffer t))) →
  bigEndian (sendBuffer t) = big →
  let t' := enqueueSendRequest sendto
              (message_sender CA_VERSION big command ensureCapacity ops) t in
  wire t'
  = wire t
    ++ match sendAddresses t with
       | None => []
       | Some addrs =>
           (., frame_bytes (sent_frame CA_VERSION big command ops)) <$> addrs
       end
  ∧ sendToEnabled t' = false.
Proof.
  intros Hcap He t'.
  set (t2 := with_sendBuffer (clear (sendBuffer t)) (with_sendTo (sendTo t) false t)).
  set (t4 := endMessage (writePayload ops
               (startMessage CA_VERSION big command ensureCapacity t2))).
  assert (Hrun : t' = (send sendto t4).2) by reflexivity.
  assert (Hsa : sendAddresses t4 = sendAddresses t) by reflexivity.
  assert (Hw : wire t4 = wire t) by reflexivity.
  assert (Hen : sendToEnabled t4 = false) by reflexivity.
  assert (Hsb : sendBuffer t4
                = mk (take (Z.to_nat 0) (arr (sendBuffer t))
                      ++ frame_bytes (sent_frame CA_VERSION big command ops)
                      ++ drop (Z.to_nat 0 + (8 + length (written big ops)))
                           (arr (sendBuffer t)))
                     (0 + 8 + Z.of_nat (length (written big ops)))
                     (capacity (sendBuffer t)) big).
  { subst t4. rewrite message_bytes; [done|done|exact Hcap|exact He]. }
  rewrite Hrun. unfold send. rewrite Hsa.
  destruct (sendAddresses t) as [addrs|].
  - rewrite send_loop. cbn [snd fst]. split; [|exact Hen].
    unfold with_errlog, with_wire. cbn [wire].
    change (wire (with_sendBuffer (flip (sendBuffer t4)) t4)) with (wire t4).
    assert (Hd : take (Z.to_nat (limit (flip (sendBuffer t4))))
                   (arr (flip (sendBuffer t4)))
                 = frame_bytes (sent_frame CA_VERSION big command ops)).
    { unfold flip. cbn [limit arr]. rewrite Hsb. cbn [position arr].
      change (Z.to_nat 0) with 0%nat. rewrite take_0, app_nil_l.
      rewrite take_app_length'; [done|].
      rewrite length_frame_bytes. cbn [sent_frame f_payload]. lia. }
    by rewrite Hd, Hw.
  - cbn [snd]. rewrite Hw, app_nil_r. by split.
Qed.

Lemma started_message_bytes (command ensureCapacity : Z) (ops : list PutOp)
    (t : BlockingUDPTransport) :
  let sb := sendBuffer t in
  let e := bigEndian sb in
  0 <= position sb →
  position sb + 8 + Z.of_nat (length (written e ops)) <= Z.of_nat (length (arr sb)) →
  sendBuffer (writePayload ops (startMessage CA_VERSION big command ensureCapacity t))
  = mk (take (Z.to_nat (position sb)) (arr sb)
        ++ ([202; CA_VERSION mod 256; (if big then 128 else 0) mod 256;
             command mod 256] ++ enc e 4 0 ++ written e ops)
        ++ drop (Z.to_nat (position sb) + (8 + length (written e ops))) (arr sb))
       (position sb + 8 + Z.of_nat (length (written e ops)))
       (limit sb) e.
Proof.
  intros sb e Hp Hl.
  set (hdr := [PutByte CA_MAGIC; PutByte CA_VERSION;
               PutByte (if big then 128 else 0); PutByte command; PutInt 0]).
  assert (Hw : sendBuffer (writePayload ops
                 (startMessage CA_VERSION big command ensureCapacity t))
               = foldl apply_put sb (hdr ++ ops)).
  { rewrite foldl_app. reflexivity. }
  assert (Hwh : written e hdr
                = [202; CA_VERSION mod 256; (if big then 128 else 0) mod 256;
                   command mod 256] ++ enc e 4 0).
  { unfold written, hdr. cbn [fmap list_fmap concat put_size put_value].
    rewrite !enc_1, app_nil_r. reflexivity. }
  assert (Hlw : length (written e (hdr ++ ops)) = (8 + length (written e ops))%nat).
  { rewrite written_app, length_app, Hwh, length_app, length_enc. reflexivity. }
  rewrite Hw, writes_bytes by (fold e; rewrite ?Hlw; lia).
  fold e. rewrite Hlw, written_app, Hwh. f_equal; lia.
Qed.

(** X4.  [startMessage] does not finish the message before it, and
    [endMessage] patches the length of the message started last: when two
    messages are written into the send buffer before [endMessage], the
    second gets its payload length and the first keeps the length field 0
    that [startMessage] wrote, whatever its payload. *)
Theorem only_the_last_message_gets_its_length
    (c1 cap1 c2 cap2 : Z) (ops1 ops2 : list PutOp) (t : BlockingUDPTransport) :
  let sb := sendBuffer t in
  let e := bigEndian sb in
  let n1 := length (written e ops1) in
  let n2 := length (written e ops2) in
  let header c := [202; CA_VERSION mod 256; (if big then 128 else 0) mod 256;
                   c mod 256] in
  0 <= position sb →
  position sb + 16 + Z.of_nat (n1 + n2) <= Z.of_nat (length (arr sb)) →
  sendBuffer (endMessage
    (writePayload ops2 (startMessage CA_VERSION big c2 cap2
      (writePayload ops1 (startMessage CA_VERSION big c1 cap1 t)))))
  = mk (take (Z.to_nat (position sb)) (arr sb)
        ++ (header c1 ++ enc e 4 0 ++ written e ops1)
        ++ (header c2 ++ enc e 4 (Z.of_nat n2) ++ written e ops2)
        ++ drop (Z.to_nat (position sb) + (16 + n1 + n2)) (arr sb))
       (position sb + 16 + Z.of_nat (n1 + n2)) (limit sb) e.
Proof.
  intros sb e n1 n2 header Hp Hl.
  set (t1 := writePayload ops1 (startMessage CA_VERSION big c1 cap1 t)).
  assert (H1 : sendBuffer t1
               = mk (take (Z.to_nat (position sb)) (arr sb)
                     ++ (header c1 ++ enc e 4 0 ++ written e ops1)
                     ++ drop (Z.to_nat (position sb) + (8 + n1)) (arr sb))
                    (position sb + 8 + Z.of_nat n1) (limit sb) e).
  { apply started_message_bytes; fold sb e n1; lia. }
  set (m1 := header c1 ++ enc e 4 0 ++ written e ops1) in *.
  assert (Hm1 : length m1 = (8 + n1)%nat).
  { unfold m1. rewrite !length_app, length_enc. reflexivity. }
  assert (Hlen : length (arr sb) = (Z.to_nat (position sb) + (8 + n1)
                  + length (drop (Z.to_nat (position sb) + (8 + n1)) (arr sb)))%nat).
  { rewrite length_drop. lia. }
  rewrite message_bytes_any_order; rewrite H1; cbn [position arr bigEndian limit];
    fold n2; [| lia |].
  2:{ rewrite !length_app, length_take, Hm1, length_drop. lia. }
  f_equal; [|lia].
  replace (Z.to_nat (position sb + 8 + Z.of_nat n1))
    with (length (take (Z.to_nat (position sb)) (arr sb) ++ m1))
    by (rewrite length_app, length_take, Hm1; lia).
  rewrite (app_assoc (take _ _) m1).
  rewrite take_app_length, drop_app_add', drop_drop by done.
  rewrite <- !app_assoc. do 5 f_equal. f_equal. lia.
Qed.

End SendFacts.


(** ** Closing, and the receive thread *)

Section ThreadFacts.

Import ByteBuffer.

Variable h : ResponseHandler.

Lemma closed_close_nowait t : closed (close_nowait t) = true.
Proof. unfold close_nowait. by destruct (closed t) eqn:E. Qed.

Lemma iteration_uneventful fuel r t :
  uneventful r →
  processRead_iteration h fuel r t = (Continue, listening t, []).
Proof.
  intros [Hb Ht]. unfold processRead_iteration.
  replace (bytesRead r >? 0) with false by (symmetry; rewrite Z.gtb_ltb; apply Z.ltb_ge; lia).
  destruct (Z.eqb_spec (bytesRead r) (-1)) as [E|_]; [|done].
  specialize (Ht E). by destruct (socketError r).
Qed.

Lemma listening_twice t : listening (listening t) = listening t.
Proof. reflexivity. Qed.

Lemma loop_uneventful fuel rs t :
  closed t = false → Forall uneventful rs →
  processRead_loop h fuel rs t = (InRecvfrom, listening t, []).
Proof.
  intros Hc Hrs. revert t Hc.
  induction Hrs as [|r rs Hr Hrs IH]; intros t Hc; cbn [processRead_loop]; rewrite Hc.
  - done.
  - rewrite iteration_uneventful by done. by rewrite IH.
Qed.

(** X5.  Returns of [recvfrom] without a datagram, that is a count of 0,
    a count below -1, or -1 with EINTR, EAGAIN, ETIMEDOUT, EWOULDBLOCK,
    ECONNREFUSED or ECONNRESET, never end the receive thread: after any
    number of them the thread is back in [recvfrom], nothing has been
    logged, sent or handled, and the transport is open. *)
Theorem transient_errors_do_not_close
    (fuel : nat) (rs : list RecvFrom) (t : BlockingUDPTransport) :
  closed t = false → Forall uneventful rs →
  processRead h fuel rs t = (InRecvfrom, listening t, []).
Proof. intros Hc Hrs. unfold processRead. by rewrite loop_uneventful. Qed.

Lemma loop_app_uneventful fuel pre rs t :
  closed t = false → Forall uneventful pre → pre ≠ [] →
  processRead_loop h fuel (pre ++ rs) t = processRead_loop h fuel rs (listening t).
Proof.
  intros Hc Hpre. revert t Hc.
  induction Hpre as [|r pre Hr Hpre IH]; intros t Hc Hne; [done|].
  cbn [app processRead_loop]. rewrite Hc, iteration_uneventful by done.
  destruct pre as [|r' pre'].
  - cbn [app]. by destruct (processRead_loop h fuel rs (listening t)) as [[s t2] cs].
  - rewrite IH by done. rewrite listening_twice.
    by destruct (processRead_loop h fuel rs (listening t)) as [[s t2] cs].
Qed.

(** X6.  The first return of -1 with any other socket error ends the
    receive thread: the error is logged, the transport is closed, the exit
    of the thread is logged, in this order, and no later return of
    [recvfrom] is looked at. *)
Theorem fatal_socket_error_ends_the_thread
    (fuel : nat) (pre rest : list RecvFrom) (r : RecvFrom) (code : Z)
    (t : BlockingUDPTransport) :
  closed t = false → Forall uneventful pre →
  bytesRead r = -1 → socketError r = SOCK_EOTHER code →
  processRead h fuel (pre ++ r :: rest) t
  = (ThreadExited,
     with_errlog (errlog t ++ [recvfrom_error; socket_closed; thread_exiting])
       (with_closed true (listening t)),
     []).
Proof.
  intros Hc Hpre Hb He. unfold processRead.
  assert (Hone : ∀ t0, closed t0 = false →
            processRead_loop h fuel (r :: rest) t0
            = (ThreadExited,
               with_errlog (errlog t0 ++ [recvfrom_error; socket_closed])
                 (with_closed true (listening t0)), [])).
  { intros t0 Hc0. cbn [processRead_loop]. rewrite Hc0.
    unfold processRead_iteration. rewrite Hb, He. cbn [Z.gtb Z.compare Z.eqb].
    change (closed (with_receiveBuffer (clear (receiveBuffer t0)) t0)) with (closed t0).
    rewrite Hc0. unfold close_nowait.
    change (closed (log _ (with_receiveBuffer (clear (receiveBuffer t0)) t0)))
      with (closed t0).
    rewrite Hc0. f_equal. f_equal. destruct t0. unfold log, with_errlog, with_closed,
      listening, with_receiveBuffer. cbn. by rewrite <- app_assoc. }
  destruct pre as [|r0 pre0].
  - cbn [app]. rewrite Hone by done.
    destruct t. unfold log, with_errlog, with_closed, listening, with_receiveBuffer.
    cbn. by rewrite <- app_assoc.
  - rewrite loop_app_uneventful, Hone by done.
    destruct t. unfold log, with_errlog, with_closed, listening, with_receiveBuffer.
    cbn. by rewrite <- app_assoc.
Qed.

Lemma iteration_break_closed fuel r t t1 cs :
  processRead_iteration h fuel r t = (Break, t1, cs) → closed t1 = true.
Proof.
  unfold processRead_iteration.
  destruct (bytesRead r >? 0).
  - destruct (isIgnored _ _); [done|].
    destruct (processBuffer h fuel _ _) as [[e t2] cs2].
    destruct e; intros [= <- <-]. apply closed_close_nowait.
  - destruct (bytesRead r =? -1); [|done].
    destruct (socketError r); intros [= <- <-]. apply closed_close_nowait.
Qed.

Lemma loop_exit_closed fuel rs t :
  (processRead_loop h fuel rs t).1.1 = ThreadExited →
  closed (processRead_loop h fuel rs t).1.2 = true.
Proof.
  revert t. induction rs as [|r rs IH]; intros t; cbn [processRead_loop].
  - by destruct (closed t) eqn:E.
  - destruct (closed t) eqn:E; [done|].
    destruct (processRead_iteration h fuel r t) as [[ctl t1] cs] eqn:Eit.
    destruct ctl.
    + specialize (IH t1).
      destruct (processRead_loop h fuel rs t1) as [[s t2] cs']. exact IH.
    + intros _. cbn [fst snd]. by eapply iteration_break_closed.
    + done.
Qed.

Lemma loop_open_otherwise fuel rs t :
  (processRead_loop h fuel rs t).1.1 = InRecvfrom →
  closed (processRead_loop h fuel rs t).1.2 = false.
Proof.
  revert t. induction rs as [|r rs IH]; intros t; cbn [processRead_loop].
  - by destruct (closed t) eqn:E.
  - destruct (closed t) eqn:E; [done|].
    destruct (processRead_iteration h fuel r t) as [[ctl t1] cs] eqn:Eit.
    destruct ctl; [|done|done].
    specialize (IH t1).
    destruct (processRead_loop h fuel rs t1) as [[s t2] cs']. exact IH.
Qed.

(** X7.  [close] acts once: it leaves the transport closed; a second
    [close], with any arguments, changes nothing (it returns before the
    wait), and so does a [close] after the receive thread has exited,
    which has closed the transport itself.  Closing an open transport
    logs the closing, and the complaint about the receive thread only
    when it was to wait and the shutdown event did not come.  Without
    waiting it is the [close(true, false)] of the receive loop. *)
Theorem close_acts_once (forced wait signalled forced' wait' signalled' : bool)
    (fuel : nat) (rs : list RecvFrom) (t : BlockingUDPTransport) :
  closed (close forced wait signalled t) = true
  ∧ close forced' wait' signalled' (close forced wait signalled t)
    = close forced wait signalled t
  ∧ ((processRead h fuel rs t).1.1 = ThreadExited →
     close forced wait signalled (processRead h fuel rs t).1.2
     = (processRead h fuel rs t).1.2)
  ∧ close forced false signalled t = close_nowait t
  ∧ errlog (close forced wait signalled t)
    = errlog t
      ++ (if closed t then []
          else socket_closed
               :: (if wait && negb signalled then [thread_not_exited] else [])).
Proof.
  assert (Hc : closed (close forced wait signalled t) = true).
  { unfold close. destruct (closed t) eqn:E; [done|].
    by destruct wait, signalled. }
  split; [exact Hc|]. split; [|split; [|split]].
  - unfold close at 1. by rewrite Hc.
  - unfold processRead. pose proof (loop_exit_closed fuel rs t) as Hex.
    destruct (processRead_loop h fuel rs t) as [[s t1] cs]. cbn [fst snd] in *.
    destruct s; cbn [fst snd]; try done. intros _.
    unfold close. change (closed (log _ t1)) with (closed t1). by rewrite Hex.
  - reflexivity.
  - unfold close. destruct (closed t); [by rewrite app_nil_r|].
    destruct wait, signalled; cbn; by rewrite <- ?app_assoc.
Qed.

(** X8.  [processRead] returns only with the transport closed, and the
    last thing it logs is the exit of the thread; while it waits in
    [recvfrom] the transport is open.  Started on a closed transport it
    returns at once without reading. *)
Theorem processRead_returns_only_when_closed
    (fuel : nat) (rs : list RecvFrom) (t : BlockingUDPTransport) :
  let run := processRead h fuel rs t in
  (run.1.1 = ThreadExited →
     closed run.1.2 = true ∧ last (errlog run.1.2) = Some thread_exiting)
  ∧ (run.1.1 = InRecvfrom → closed run.1.2 = false)
  ∧ (closed t = true → run = (ThreadExited, log thread_exiting t, [])).
Proof.
  intros run. subst run. unfold processRead.
  pose proof (loop_exit_closed fuel rs t) as Hex.
  pose proof (loop_open_otherwise fuel rs t) as Hop.
  split; [|split].
  - destruct (processRead_loop h fuel rs t) as [[s t1] cs]. cbn [fst snd] in *.
    destruct s; cbn [fst snd]; try done. intros _. split.
    + by apply Hex.
    + unfold log, with_errlog. cbn [errlog]. apply last_snoc.
  - destruct (processRead_loop h fuel rs t) as [[s t1] cs]. cbn [fst snd] in *.
    by destruct s.
  - intros Hc. destruct rs; cbn [processRead_loop]; by rewrite Hc.
Qed.


End ThreadFacts.

(** ** More on the framing of datagrams *)

Section FramingFacts.

Import ByteBuffer.

Variable h : ResponseHandler.

Lemma processBuffer_short (fuel : nat) (from : osiSockAddr) (t : BlockingUDPTransport) :
  to_int32 (getRemaining (receiveBuffer t)) < CA_MESSAGE_HEADER_SIZE →
  processBuffer h (S fuel) from t = (Returned true, t, []).
Proof.
  intros Hr. cbn [processBuffer].
  by replace (to_int32 (getRemaining (receiveBuffer t)) >=? CA_MESSAGE_HEADER_SIZE)
    with false by (symmetry; rewrite Z.geb_leb; apply Z.leb_gt; lia).
Qed.





Lemma processBuffer_progress (fuel : nat) (from : osiSockAddr)
    (t : BlockingUDPTransport) :
  keeps_bytes h →
  0 <= position (receiveBuffer t) <= limit (receiveBuffer t) →
  limit (receiveBuffer t) < 2 ^ 31 →
  limit (receiveBuffer t) - position (receiveBuffer t) < 8 * Z.of_nat fuel + 8 →
  (processBuffer h (S fuel) from t).1.1 = Unfinished →
  Exists (λ c, c_payloadSize c < 0) (processBuffer h (S fuel) from t).2.
Proof.
  intros Hh. revert t. induction fuel as [|fuel IH]; intros t Hpos Hlim Hrem.
  { rewrite processBuffer_short; [done|].
    unfold getRemaining. change (2 ^ 31) with 2147483648 in Hlim.
    rewrite to_int32_small by (unfold is_int32; lia).
    unfold CA_MESSAGE_HEADER_SIZE. lia. }
  destruct t as [cl sa ia st ste [a p l e] sb lm r1 r2 r3 w lg].
  cbn [receiveBuffer position limit] in Hpos, Hlim, Hrem.
  change (2 ^ 31) with 2147483648 in Hlim.
  remember (S fuel) as fuel1 eqn:Ef.
  cbn [processBuffer receiveBuffer].
  destruct (to_int32 (getRemaining (mk a p l e)) >=? CA_MESSAGE_HEADER_SIZE) eqn:Eg;
    [|done].
  unfold getRemaining, CA_MESSAGE_HEADER_SIZE in Eg. cbn [position limit] in Eg.
  rewrite to_int32_small in Eg by (unfold is_int32; lia).
  apply Z.geb_le in Eg.
  unfold getByte, getInt, get, setEndianess, setPosition.
  cbv beta iota zeta. cbn [position limit arr bigEndian getPosition getLimit].
  change (Z.of_nat 1) with 1. change (Z.of_nat 4) with 4.
  destruct (Z.eqb_spec (to_int8 (dec e (slice a p 1))) CA_MAGIC) as [Hm|Hm];
    cbn [negb]; [|done].
  set (size32 := to_int32 (dec _ (slice a (p + 1 + 1 + 1 + 1) 4))).
  assert (Hs32 : is_int32 size32) by apply to_int32_range.
  set (fl := to_int8 (dec e (slice a (p + 1 + 1) 1)) <? 0).
  set (cmd := to_int8 (dec fl (slice a (p + 1 + 1 + 1) 1))).
  set (v := to_int8 (dec e (slice a (p + 1) 1))).
  replace (p + 1 + 1 + 1 + 1 + 4) with (p + 8) by lia.
  destruct (Z.gtb_spec (to_size_t (p + 8 + to_size_t size32)) l) as [Hgt|Hle];
    [done|].
  rewrite to_int32_to_size_t, (to_int32_small size32) by done.
  destruct (Z.ltb_spec size32 0) as [Hneg|Hnn].
  { destruct (h from v cmd size32 _) as [t'|t'] eqn:Eh.
    - destruct (processBuffer h fuel1 from _) as [[e' tf] cs]. cbn [fst snd].
      intros _. by apply Exists_cons_hd.
    - done. }
  rewrite next_position_exact in *
    by (done || (unfold is_int32 in Hs32; change (2 ^ 64) with 18446744073709551616; lia)).
  destruct (h from v cmd size32 _) as [t'|t'] eqn:Eh; [|done].
  destruct (Hh _ _ _ _ _ _ Eh) as (Ha & Hlm).
  cbn [receiveBuffer with_receiveBuffer arr limit] in Ha, Hlm.
  subst fuel1.
  match goal with |- context [processBuffer h (S fuel) from ?t''] =>
    specialize (IH t''
      ltac:(cbn [receiveBuffer with_receiveBuffer position limit]; lia)
      ltac:(cbn [receiveBuffer with_receiveBuffer position limit]; lia)
      ltac:(cbn [receiveBuffer with_receiveBuffer position limit]; lia))
  end.
  destruct (processBuffer h (S fuel) from _) as [[e' tf] cs]. cbn [fst snd] in *.
  intros He. apply Exists_cons_tl. by apply IH.
Qed.

(** X11.  A negative length field is the only way for [processBuffer] not
    to return.  With a handler that leaves the bytes and the limit of the
    buffer alone, take one more iteration than 8-byte headers fit into
    the unread part of the buffer: a run that has still not returned has
    called the handler with a negative payload size, and a run in which
    every payload size was at least 0 has returned or was left by an
    exception of the handler. *)
Theorem processBuffer_returns_unless_a_length_is_negative
    (from : osiSockAddr) (t : BlockingUDPTransport) :
  keeps_bytes h →
  0 <= position (receiveBuffer t) <= limit (receiveBuffer t) →
  limit (receiveBuffer t) < 2 ^ 31 →
  let run := processBuffer h (S (Z.to_nat (getRemaining (receiveBuffer t) / 8)))
               from t in
  (run.1.1 = Unfinished → Exists (λ c, c_payloadSize c < 0) run.2)
  ∧ (Forall (λ c, 0 <= c_payloadSize c) run.2 → run.1.1 ≠ Unfinished).
Proof.
  intros Hh Hpos Hlim run.
  assert (Hrun : run.1.1 = Unfinished → Exists (λ c, c_payloadSize c < 0) run.2).
  { subst run. apply processBuffer_progress; try done.
    unfold getRemaining. rewrite Z2Nat.id by (apply Z.div_pos; lia).
    pose proof (Z.mul_succ_div_gt
                  (limit (receiveBuffer t) - position (receiveBuffer t)) 8
                  ltac:(lia)). lia. }
  split; [exact Hrun|].
  intros Hall Hun. apply Hrun in Hun. apply Exists_exists in Hun as (c & Hin & Hneg).
  rewrite Forall_forall in Hall. specialize (Hall c Hin). lia.
Qed.

End FramingFacts.

(** ** More on the server's dispatcher *)

Section ServerFacts.

Import ByteBuffer.

Variable CA_VERSION : Z.
Variable EPICS_BYTE_ORDER_BIG : bool.
Variable sendto : osiSockAddr -> list Z -> Z.
Variable debug : bool.

Local Abbreviation table0 := (handlerTable CA_VERSION EPICS_BYTE_ORDER_BIG sendto debug).
Local Abbreviation server := (ServerResponseHandler_handleResponse table0).
Local Abbreviation enqueue := (enqueueSendRequest sendto).
Local Abbreviation echoSender := (EchoTransportSender_send CA_VERSION EPICS_BYTE_ORDER_BIG).
Local Abbreviation abstract := (AbstractResponseHandler_handleResponse debug).

(** X12.  The commands 3 to 27 all reach the one [BadResponse]: the frame
    is logged as undecipherable (after the debug dump, when debugging is
    on) and nothing else happens; no datagram is sent, the buffers and the
    closed flag stay as they are. *)
Theorem unassigned_commands_are_only_logged
    (from : osiSockAddr) (version command payloadSize : Z) (t : BlockingUDPTransport) :
  3 <= command < HANDLER_TABLE_LENGTH →
  let t' := log (undecipherable command from)
              (abstract from version command payloadSize t) in
  server from version command payloadSize t = Ok t'
  ∧ wire t' = wire t
  ∧ receiveBuffer t' = receiveBuffer t
  ∧ sendBuffer t' = sendBuffer t
  ∧ closed t' = closed t
  ∧ errlog t'
    = errlog t
      ++ (if debug
          then [HexDump "Message received" (getPosition (receiveBuffer t)) payloadSize]
          else [])
      ++ [undecipherable command from].
Proof.
  intros Hc t'. unfold HANDLER_TABLE_LENGTH in Hc.
  split; [|subst t'; unfold AbstractResponseHandler_handleResponse;
           destruct debug; cbn; by rewrite <- ?app_assoc].
  unfold ServerResponseHandler_handleResponse, HANDLER_TABLE_LENGTH.
  replace ((command <? 0) || (command >=? 28)) with false
    by (symmetry; apply orb_false_iff; lia).
  fold ResponseHandler.
  by rewrite (handlerTable_bad CA_VERSION EPICS_BYTE_ORDER_BIG sendto debug
                (Z.to_nat command)) by lia.
Qed.

Lemma length_put n v b : length (arr (put n v b)) = length (arr b).
Proof. unfold put, putAt, setPosition, setArray. cbn [arr]. apply length_inserts. Qed.

Lemma echo_sendBuffer_length (A : osiSockAddr) (t : BlockingUDPTransport) :
  length (arr (sendBuffer (enqueue (echoSender A) t))) = length (arr (sendBuffer t)).
Proof.
  set (t2 := with_sendBuffer (clear (sendBuffer t)) (with_sendTo (sendTo t) false t)).
  set (t4 := endMessage (setRecipient A
               (startMessage CA_VERSION EPICS_BYTE_ORDER_BIG CMD_ECHO 0 t2))).
  assert (Hrun : enqueue (echoSender A) t = (send_to sendto A t4).2) by reflexivity.
  assert (Hsb : sendBuffer (send_to sendto A t4).2 = flip (sendBuffer t4)).
  { unfold send_to, sendto_call. by destruct (sendto _ _ <? 0). }
  rewrite Hrun, Hsb. unfold flip. cbn [arr].
  assert (H4 : sendBuffer t4
               = putIntAt (lastMessageStartPosition t4 + (2 + 2))
                   (getPosition (sendBuffer (startMessage CA_VERSION EPICS_BYTE_ORDER_BIG
                                               CMD_ECHO 0 t2))
                    - lastMessageStartPosition t4 - CA_MESSAGE_HEADER_SIZE)
                   (sendBuffer (startMessage CA_VERSION EPICS_BYTE_ORDER_BIG
                                  CMD_ECHO 0 t2))) by reflexivity.
  rewrite H4. unfold putIntAt, putAt, setArray. cbn [arr]. rewrite length_inserts.
  assert (H2 : sendBuffer (startMessage CA_VERSION EPICS_BYTE_ORDER_BIG CMD_ECHO 0 t2)
               = putInt 0 (putByte CMD_ECHO
                   (putByte (if EPICS_BYTE_ORDER_BIG then 128 else 0)
                      (putByte CA_VERSION (putByte CA_MAGIC (clear (sendBuffer t)))))))
    by reflexivity.
  rewrite H2. unfold putInt, putByte. by rewrite !length_put.
Qed.

Lemma server_echo (A : osiSockAddr) (v n : Z) (t : BlockingUDPTransport) :
  server A v CMD_ECHO n t = Ok (enqueue (echoSender A) (abstract A v CMD_ECHO n t)).
Proof. reflexivity. Qed.

Lemma abstract_sendBuffer from v c n t :
  sendBuffer (abstract from v c n t) = sendBuffer t.
Proof. unfold AbstractResponseHandler_handleResponse. by destruct debug. Qed.

Lemma abstract_wire from v c n t : wire (abstract from v c n t) = wire t.
Proof. unfold AbstractResponseHandler_handleResponse. by destruct debug. Qed.

Lemma abstract_closed from v c n t : closed (abstract from v c n t) = closed t.
Proof. unfold AbstractResponseHandler_handleResponse. by destruct debug. Qed.

Lemma echo_closed (A : osiSockAddr) (t : BlockingUDPTransport) :
  closed (enqueue (echoSender A) t) = closed t.
Proof.
  set (t2 := with_sendBuffer (clear (sendBuffer t)) (with_sendTo (sendTo t) false t)).
  set (t4 := endMessage (setRecipient A
               (startMessage CA_VERSION EPICS_BYTE_ORDER_BIG CMD_ECHO 0 t2))).
  assert (Hrun : enqueue (echoSender A) t = (send_to sendto A t4).2) by reflexivity.
  rewrite Hrun. unfold send_to, sendto_call. by destruct (sendto _ _ <? 0).
Qed.

Lemma echo_frames_answered
    (fs : list Frame) (A : osiSockAddr) (t : BlockingUDPTransport) (junk : list Z) :
  Forall echo_request fs →
  0 <= position (receiveBuffer t) →
  drop (Z.to_nat (position (receiveBuffer t))) (arr (receiveBuffer t))
    = datagram fs ++ junk →
  limit (receiveBuffer t)
    = position (receiveBuffer t) + Z.of_nat (length (datagram fs)) →
  limit (receiveBuffer t) < 2 ^ 31 →
  (8 ≤ length (arr (sendBuffer t)))%nat →
  ∃ tf,
    processBuffer server (S (length fs)) A t
    = (Returned true, tf,
       frame_calls A (arr (receiveBuffer t)) (limit (receiveBuffer t))
         (position (receiveBuffer t)) fs)
    ∧ wire tf
      = wire t ++ replicate (length fs)
                    (A, echo_datagram CA_VERSION EPICS_BYTE_ORDER_BIG)
    ∧ position (receiveBuffer tf) = limit (receiveBuffer t)
    ∧ closed tf = closed t.
Proof.
  intros Hfs. revert t.
  induction Hfs as [|f fs ((Hv & Hfl & Hc) & Hecho) Hfs IH];
    intros t Hpos Hd Hl Hlim Hsb.
  - exists t. unfold datagram in Hl. simpl in Hl.
    rewrite processBuffer_short.
    + cbn [length replicate frame_calls]. rewrite app_nil_r. repeat split. lia.
    + unfold getRemaining. replace (limit _ - position _) with 0 by lia. done.
  - assert (Hdg : datagram (f :: fs) = frame_bytes f ++ datagram fs) by reflexivity.
    rewrite Hdg in *. rewrite length_app, length_frame_bytes in *.
    assert (Hd' : drop (Z.to_nat (position (receiveBuffer t))) (arr (receiveBuffer t))
                  = [202; f_version f mod 256; f_flags f mod 256; f_command f mod 256]
                    ++ enc (f_flags f <? 0) 4 (Z.of_nat (length (f_payload f)))
                    ++ (f_payload f ++ datagram fs ++ junk)).
    { rewrite Hd. unfold frame_bytes. by rewrite <- !app_assoc. }
    cbn [length].
    rewrite (processBuffer_frame server (S (length fs)) A t (f_version f) (f_flags f)
               (f_command f) (Z.of_nat (length (f_payload f)))
               (f_payload f ++ datagram fs ++ junk))
      by (done || (unfold is_int32; change (2 ^ 31) with 2147483648 in Hlim; lia)).
    cbv zeta. cbn [frame_calls]. rewrite Hecho, server_echo.
    set (t0 := with_receiveBuffer
                 (mk (arr (receiveBuffer t)) (position (receiveBuffer t) + 8)
                    (limit (receiveBuffer t)) (f_flags f <? 0)) t).
    set (t' := enqueue (echoSender A)
                 (abstract A (f_version f) CMD_ECHO (Z.of_nat (length (f_payload f))) t0)).
    assert (Hrb : receiveBuffer t' = receiveBuffer t0).
    { unfold t'. by rewrite echo_receiveBuffer, abstract_receiveBuffer. }
    assert (Hw : wire t' = wire t
                           ++ [(A, echo_datagram CA_VERSION EPICS_BYTE_ORDER_BIG)]).
    { unfold t'.
      destruct (echo_enqueue_wire CA_VERSION EPICS_BYTE_ORDER_BIG sendto A
                  (abstract A (f_version f) CMD_ECHO (Z.of_nat (length (f_payload f))) t0))
        as (-> & _); [by rewrite abstract_sendBuffer|].
      by rewrite abstract_wire. }
    assert (Hs' : (8 ≤ length (arr (sendBuffer t')))%nat).
    { unfold t'. by rewrite echo_sendBuffer_length, abstract_sendBuffer. }
    match goal with |- context [processBuffer server _ A ?x] => set (t'' := x) end.
    assert (Ha2 : arr (receiveBuffer t'') = arr (receiveBuffer t)).
    { unfold t''. cbn [receiveBuffer with_receiveBuffer setPosition arr].
      by rewrite Hrb. }
    assert (Hl2 : limit (receiveBuffer t'') = limit (receiveBuffer t)).
    { unfold t''. cbn [receiveBuffer with_receiveBuffer setPosition limit].
      by rewrite Hrb. }
    assert (Hp2 : position (receiveBuffer t'')
                  = position (receiveBuffer t) + 8 + Z.of_nat (length (f_payload f)))
      by reflexivity.
    assert (Hw2 : wire t'' = wire t') by reflexivity.
    assert (Hc2 : closed t'' = closed t).
    { change (closed t'') with (closed t'). unfold t'.
      by rewrite echo_closed, abstract_closed. }
    assert (Hs2 : sendBuffer t'' = sendBuffer t') by reflexivity.
    destruct (IH t'') as (tf & Hrun & Hwire & Hp & Hcl); rewrite ?Ha2, ?Hl2, ?Hp2, ?Hs2.
    + lia.
    + replace (Z.to_nat (position (receiveBuffer t) + 8
                         + Z.of_nat (length (f_payload f))))
        with (Z.to_nat (position (receiveBuffer t)) + length (frame_bytes f))%nat
        by (rewrite length_frame_bytes; lia).
      rewrite <- (drop_drop _ (length (frame_bytes f))
                    (Z.to_nat (position (receiveBuffer t)))).
      rewrite Hd, <- app_assoc, drop_app_length. done.
    + lia.
    + lia.
    + exact Hs'.
    + rewrite Ha2, Hl2, Hp2 in Hrun. rewrite Hl2 in Hp. rewrite Hw2, Hw in Hwire.
      exists tf. rewrite Hrun. split; [done|]. split; [|split; [exact Hp|congruence]].
      rewrite Hwire, <- app_assoc. done.
Qed.

(** X13.  A datagram of echo requests from [A], whatever their versions,
    byte orders and payloads, is answered frame by frame: [processBuffer]
    with the server's dispatcher returns true, the dispatcher is called
    once per frame, and one reply per frame, always the eight header bytes
    with command 2 and length 0, has gone out to [A]. *)
Theorem every_echo_frame_is_answered
    (fs : list Frame) (A : osiSockAddr) (t : BlockingUDPTransport) (junk : list Z) :
  Forall echo_request fs →
  0 <= position (receiveBuffer t) →
  drop (Z.to_nat (position (receiveBuffer t))) (arr (receiveBuffer t))
    = datagram fs ++ junk →
  limit (receiveBuffer t)
    = position (receiveBuffer t) + Z.of_nat (length (datagram fs)) →
  limit (receiveBuffer t) < 2 ^ 31 →
  (8 ≤ length (arr (sendBuffer t)))%nat →
  ∃ tf,
    processBuffer server (S (length fs)) A t
    = (Returned true, tf,
       frame_calls A (arr (receiveBuffer t)) (limit (receiveBuffer t))
         (position (receiveBuffer t)) fs)
    ∧ wire tf
      = wire t ++ replicate (length fs)
                    (A, echo_datagram CA_VERSION EPICS_BYTE_ORDER_BIG)
    ∧ position (receiveBuffer tf) = limit (receiveBuffer t).
Proof.
  intros Hfs Hpos Hd Hl Hlim Hsb.
  destruct (echo_frames_answered fs A t junk Hfs Hpos Hd Hl Hlim Hsb)
    as (tf & Hrun & Hw & Hp & _).
  by exists tf.
Qed.

(** X14.  An echo reply is itself a well-formed frame of command 2, and
    the header carries nothing that tells a reply from a request: a
    server that receives the reply of another answers it with the same
    eight bytes. *)
Theorem echo_reply_is_answered_in_turn
    (B : osiSockAddr) (t : BlockingUDPTransport) (junk : list Z) :
  frame_bytes (echo_reply CA_VERSION EPICS_BYTE_ORDER_BIG)
  = echo_datagram CA_VERSION EPICS_BYTE_ORDER_BIG
  ∧ echo_request (echo_reply CA_VERSION EPICS_BYTE_ORDER_BIG)
  ∧ (0 <= position (receiveBuffer t) →
     drop (Z.to_nat (position (receiveBuffer t))) (arr (receiveBuffer t))
       = echo_datagram CA_VERSION EPICS_BYTE_ORDER_BIG ++ junk →
     limit (receiveBuffer t) = position (receiveBuffer t) + 8 →
     limit (receiveBuffer t) < 2 ^ 31 →
     (8 ≤ length (arr (sendBuffer t)))%nat →
     ∃ tf,
       processBuffer server 2 B t
       = (Returned true, tf,
          [mkCall B (to_int8 CA_VERSION) CMD_ECHO 0
             (mk (arr (receiveBuffer t)) (position (receiveBuffer t) + 8)
                (limit (receiveBuffer t)) EPICS_BYTE_ORDER_BIG)])
       ∧ wire tf = wire t ++ [(B, echo_datagram CA_VERSION EPICS_BYTE_ORDER_BIG)]).
Proof.
  assert (Hb : frame_bytes (echo_reply CA_VERSION EPICS_BYTE_ORDER_BIG)
               = echo_datagram CA_VERSION EPICS_BYTE_ORDER_BIG).
  { unfold frame_bytes, echo_reply, echo_datagram.
    cbn [f_version f_flags f_command f_payload length].
    rewrite to_int8_mod, enc_4_0. by destruct EPICS_BYTE_ORDER_BIG. }
  assert (Hr : echo_request (echo_reply CA_VERSION EPICS_BYTE_ORDER_BIG)).
  { split; [|done]. split; [apply to_int8_range|].
    unfold is_int8. cbn. by destruct EPICS_BYTE_ORDER_BIG. }
  split; [exact Hb|]. split; [exact Hr|].
  intros Hpos Hd Hl Hlim Hsb.
  destruct (echo_frames_answered [echo_reply CA_VERSION EPICS_BYTE_ORDER_BIG] B t junk)
    as (tf & Hrun & Hw & _ & _).
  - by constructor.
  - done.
  - unfold datagram. cbn [fmap list_fmap concat]. by rewrite app_nil_r, Hb.
  - unfold datagram. cbn [fmap list_fmap concat]. rewrite app_nil_r, Hb. exact Hl.
  - done.
  - done.
  - cbn [length] in Hrun. exists tf. split; [|exact Hw]. rewrite Hrun. cbn [frame_calls echo_reply
      f_version f_flags f_command f_payload length].
    by destruct EPICS_BYTE_ORDER_BIG.
Qed.

(** X15.  A datagram of echo requests from a source that is not ignored
    is answered and the receive thread goes on: [processRead] calls the
    dispatcher once per frame, one reply per frame has gone out to the
    source, the transport is still open and the thread is back in
    [recvfrom]. *)
Theorem echo_requests_keep_the_thread_running
    (fs : list Frame) (r : RecvFrom) (t : BlockingUDPTransport) :
  closed t = false →
  isIgnored (fromAddress r) t = false →
  Forall echo_request fs →
  fs ≠ [] →
  data r = datagram fs →
  bytesRead r = Z.of_nat (length (data r)) →
  (length (data r) ≤ length (arr (receiveBuffer t)))%nat →
  Z.of_nat (length (arr (receiveBuffer t))) < 2 ^ 31 →
  (8 ≤ length (arr (sendBuffer t)))%nat →
  ∃ tf,
    processRead server (S (length fs)) [r] t
    = (InRecvfrom, tf,
       frame_calls (fromAddress r) (arr (received r t)) (bytesRead r) 0 fs)
    ∧ wire tf
      = wire t ++ replicate (length fs)
                    (fromAddress r, echo_datagram CA_VERSION EPICS_BYTE_ORDER_BIG)
    ∧ closed tf = false.
Proof.
  intros Hc Hig Hfs Hne Hd Hb Hfit Hcap Hsb.
  set (rb2 := flip (setPosition (received r t) (bytesRead r))).
  set (t2 := with_receiveBuffer rb2 (with_receiveBuffer (received r t) t)).
  assert (Hpos : 0 < bytesRead r).
  { rewrite Hb, Hd. destruct fs as [|f fs']; [done|].
    change (datagram (f :: fs')) with (frame_bytes f ++ datagram fs').
    rewrite length_app, length_frame_bytes. lia. }
  destruct (echo_frames_answered fs (fromAddress r) t2
              (drop (length (data r)) (arr (receiveBuffer t))))
    as (tf & Hrun & Hw & _ & Hcl); try done.
  - unfold t2, rb2, received, flip, setPosition, setArray, clear.
    cbn [receiveBuffer with_receiveBuffer position arr].
    change (Z.to_nat 0) with 0%nat. rewrite drop_0.
    rewrite list_inserts_take_drop by (simpl; lia).
    by rewrite take_0, app_nil_l, Nat.add_0_l, Hd.
  - unfold t2, rb2, flip, setPosition.
    cbn [receiveBuffer with_receiveBuffer position limit]. by rewrite Hb, Hd.
  - unfold t2, rb2, flip, setPosition.
    cbn [receiveBuffer with_receiveBuffer position limit].
    change (2 ^ 31) with 2147483648 in *. lia.
  - exists (listening tf).
    split; [|split; [exact Hw|change (closed tf = false); rewrite Hcl; exact Hc]].
    unfold processRead. cbn [processRead_loop]. rewrite Hc.
    unfold processRead_iteration.
    replace (bytesRead r >? 0) with true by (symmetry; apply Z.gtb_lt; lia).
    fold (received r t).
    assert (isIgnored (fromAddress r) (with_receiveBuffer (received r t) t) = false)
      as -> by exact Hig.
    fold rb2. fold t2. rewrite Hrun.
    assert (Hct : closed tf = false) by (by rewrite Hcl).
    rewrite Hct. by rewrite app_nil_r.
Qed.

End ServerFacts.

(** ** The registry as a map, and its vectors *)

Module RegistryViews.
Section Facts.

Import TransportRegistry RegistryFacts.
Context {AddrKey : Type} `{Countable AddrKey}.
Implicit Types (r : t (AddrKey := AddrKey)) (tr : Transport (AddrKey := AddrKey)).
Implicit Types (ts : gmap AddrKey (gmap Z (Transport (AddrKey := AddrKey)))).

Lemma get_stored r a p : get a p r = stored r !! (a, p).
Proof. rewrite stored_lookup. unfold get. by destruct (transports r !! a). Qed.

Lemma keyed_create : keyed (create (AddrKey := AddrKey)).
Proof. intros a p tr. rewrite get_stored. unfold stored, create, map_uncurry. simpl.
  by rewrite map_fold_empty, lookup_empty. Qed.

Lemma keyed_put tr r : keyed r → keyed (put tr r).
Proof.
  intros Hk a p x. rewrite get_stored, stored_put.
  destruct (decide ((getRemoteAddress tr, getPriority tr) = (a, p))) as [E|N].
  - rewrite E, lookup_insert_eq. intros [= <-]. by injection E.
  - rewrite lookup_insert_ne by done. rewrite <- get_stored. apply Hk.
Qed.

Lemma keyed_remove tr r : keyed r → keyed (remove tr r).2.
Proof.
  intros Hk a p x. rewrite get_stored, stored_remove.
  intros [_ Hl]%lookup_delete_Some. rewrite <- get_stored in Hl. by apply Hk.
Qed.

Lemma keyed_foldl (ops : list (Op (AddrKey := AddrKey))) r :
  keyed r → keyed (foldl apply r ops).
Proof.
  revert r. induction ops as [|o ops IH]; intros r Hr; simpl; [done|].
  apply IH. destruct o; simpl; [by apply keyed_put|by apply keyed_remove|apply keyed_create].
Qed.

(** X16.  After [put(transport)], [get] at the transport's own address and
    priority returns that transport and [get] at every other pair is what it
    was; the count goes up by one exactly when the pair was free, so that
    replacing a transport leaves it alone, and putting the same transport
    a second time changes nothing. *)
Theorem get_after_put tr r a p :
  get a p (put tr r)
  = (if decide ((a, p) = (getRemoteAddress tr, getPriority tr))
     then Some tr else get a p r)
  ∧ numberOfActiveTransports (put tr r)
    = numberOfActiveTransports r
      + match get (getRemoteAddress tr) (getPriority tr) r with
        | Some _ => 0
        | None => 1
        end
  ∧ put tr (put tr r) = put tr r.
Proof.
  split; [|split].
  - rewrite !get_stored, stored_put. case_decide as E.
    + rewrite E. apply lookup_insert_eq.
    + apply lookup_insert_ne. congruence.
  - unfold numberOfActiveTransports, put, get.
    destruct (transports r !! getRemoteAddress tr) as [m|]; simpl; [|done].
    destruct (m !! getPriority tr); simpl; lia.
  - unfold put at 1.
    assert (Hl : transports (put tr r) !! getRemoteAddress tr
                 = Some (<[getPriority tr := tr]>
                           (default ∅ (transports r !! getRemoteAddress tr)))).
    { unfold put. destruct (transports r !! getRemoteAddress tr) as [m|]; simpl;
        by rewrite lookup_insert_eq. }
    rewrite Hl, lookup_insert_eq, insert_insert_eq.
    unfold put. destruct (transports r !! getRemoteAddress tr) as [m|]; simpl;
      by rewrite insert_insert_eq.
Qed.

(** X17.  [remove(transport)] looks only at the address and the priority of
    its argument: it returns whatever transport is stored under that pair
    (not necessarily the argument), after which [get] finds nothing there
    and every other pair is untouched; the count goes down by one exactly
    when something was stored.  When nothing is stored under the pair the
    registry is left as it was. *)
Theorem remove_takes_out_the_stored_transport tr r a p :
  (remove tr r).1 = get (getRemoteAddress tr) (getPriority tr) r
  ∧ get a p (remove tr r).2
    = (if decide ((a, p) = (getRemoteAddress tr, getPriority tr))
       then None else get a p r)
  ∧ numberOfActiveTransports (remove tr r).2
    = numberOfActiveTransports r
      - match get (getRemoteAddress tr) (getPriority tr) r with
        | Some _ => 1
        | None => 0
        end
  ∧ (get (getRemoteAddress tr) (getPriority tr) r = None → (remove tr r).2 = r).
Proof.
  split; [|split; [|split]].
  - unfold remove, get.
    destruct (transports r !! getRemoteAddress tr) as [m|]; simpl; [|done].
    by destruct (m !! getPriority tr).
  - rewrite !get_stored, stored_remove. case_decide as E.
    + rewrite E. apply lookup_delete_eq.
    + apply lookup_delete_ne. congruence.
  - unfold numberOfActiveTransports, remove, get.
    destruct (transports r !! getRemoteAddress tr) as [m|]; simpl; [|lia].
    destruct (m !! getPriority tr); simpl; lia.
  - unfold remove, get.
    destruct (transports r !! getRemoteAddress tr) as [m|]; simpl; [|done].
    by destruct (m !! getPriority tr).
Qed.

(** X18.  On a registry built by [put], [remove] and [clear]: putting a
    transport under a free pair and removing it again gives back the very
    same registry, maps and count (the address entry created for it is
    erased again), and removing a stored transport and putting it back
    does too. *)
Theorem put_and_remove_undo_each_other
    (ops : list (Op (AddrKey := AddrKey))) tr :
  (get (getRemoteAddress tr) (getPriority tr) (run ops) = None →
     remove tr (put tr (run ops)) = (Some tr, run ops))
  ∧ (get (getRemoteAddress tr) (getPriority tr) (run ops) = Some tr →
     put tr (remove tr (run ops)).2 = run ops).
Proof.
  destruct (consistent_foldl ops create consistent_create) as [_ Hne].
  fold (run ops) in Hne. destruct (run ops) as [ts n]. split.
  - unfold get, put, remove. cbn [transports transportCount].
    destruct (ts !! getRemoteAddress tr) as [m|] eqn:Em.
    + intros Hp. rewrite Hp. cbn [transports transportCount getPriority getRemoteAddress].
      rewrite lookup_insert_eq, lookup_insert_eq.
      rewrite delete_insert_id by done.
      case_decide as Hs.
      * apply map_size_empty_inv in Hs. by destruct (Hne _ _ Em).
      * f_equal. f_equal; [|lia].
        rewrite insert_insert_eq. by apply insert_id.
    + intros _. cbn [transports transportCount].
      rewrite lookup_insert_eq, lookup_insert_eq.
      rewrite delete_insert_id by apply lookup_empty.
      rewrite decide_True by apply map_size_empty.
      f_equal. f_equal; [|lia]. by apply delete_insert_id.
  - unfold get, put, remove. cbn [transports transportCount].
    destruct (ts !! getRemoteAddress tr) as [m|] eqn:Em; [|done].
    intros Hp. rewrite Hp. cbn [snd transports transportCount].
    case_decide as Hs.
    + rewrite lookup_delete_eq. f_equal; [|lia].
      apply map_size_empty_inv in Hs. rewrite insert_delete_eq.
      rewrite <- Hs, insert_delete_eq, (insert_id m) by done. by apply insert_id.
    + rewrite lookup_insert_eq, lookup_delete_eq. f_equal; [|lia].
      rewrite insert_insert_eq, insert_delete_eq, (insert_id m) by done.
      by apply insert_id.
Qed.

(** The copying loop fills the vector from its start, without an
    exception as long as the vector has room. *)
Lemma fill_spec (items : list (Transport (AddrKey := AddrKey))) pre k :
  (length items ≤ k)%nat →
  fill items (Z.of_nat (length pre)) (pre ++ replicate k None)
  = Some (pre ++ (Some <$> items) ++ replicate (k - length items) None).
Proof.
  revert pre k. induction items as [|x items IH]; intros pre k Hk.
  - simpl. by rewrite Nat.sub_0_r.
  - destruct k as [|k]; [simpl in Hk; lia|]. cbn [fill length] in *.
    unfold at_assign. rewrite decide_True by (rewrite length_app; simpl; lia).
    rewrite Nat2Z.id, insert_app_r_alt, Nat.sub_diag by done. cbn [replicate].
    change (<[0%nat:=Some x]> (None :: replicate k None))
      with (Some x :: replicate k (@None (Transport (AddrKey := AddrKey)))).
    specialize (IH (pre ++ [Some x]) k ltac:(lia)).
    rewrite length_app, <- app_assoc in IH. cbn [length app] in IH.
    rewrite Nat2Z.inj_add in IH. change (Z.of_nat 1) with 1 in IH. rewrite IH.
    by rewrite fmap_cons, <- !app_assoc.
Qed.

Lemma fill_exact (items : list (Transport (AddrKey := AddrKey))) :
  fill items 0 (replicate (length items) None) = Some (Some <$> items).
Proof.
  pose proof (fill_spec items [] (length items) ltac:(lia)) as Hf.
  by rewrite Nat.sub_diag, app_nil_r in Hf.
Qed.

Section Vectors.

Variable prioritiesIteration :
  gmap Z (Transport (AddrKey := AddrKey)) → list (Z * Transport (AddrKey := AddrKey)).
Variable transportsIteration :
  gmap AddrKey (gmap Z (Transport (AddrKey := AddrKey)))
  → list (AddrKey * gmap Z (Transport (AddrKey := AddrKey))).
Hypothesis priorities_iterated : iterates prioritiesIteration.
Hypothesis transports_iterated : iterates transportsIteration.

Local Abbreviation met := (TransportRegistry.met prioritiesIteration transportsIteration).
Local Abbreviation toArray :=
  (TransportRegistry.toArray prioritiesIteration transportsIteration).
Local Abbreviation get_all := (TransportRegistry.get_all prioritiesIteration).

Lemma met_values ts :
  (met ts).*2 = transportsIteration ts ≫= λ entry, (prioritiesIteration entry.2).*2.
Proof.
  unfold TransportRegistry.met. induction (transportsIteration ts) as [|e l IH]; [done|].
  rewrite !bind_cons, fmap_app, IH. f_equal.
  rewrite <- list_fmap_compose. done.
Qed.

Lemma elem_of_met ts a p x :
  (a, p, x) ∈ met ts
  ↔ map_uncurry (M1 := gmap AddrKey) (M2 := gmap Z)
      (M12 := gmap (AddrKey * Z)) ts !! (a, p) = Some x.
Proof.
  unfold TransportRegistry.met. rewrite list_elem_of_bind, lookup_map_uncurry. split.
  - intros ([a' m] & Hin & Hm). rewrite (transports_iterated ts) in Hm.
    apply elem_of_map_to_list in Hm.
    apply list_elem_of_fmap in Hin as ([p' x'] & [= -> -> ->] & Hp).
    rewrite (priorities_iterated m) in Hp.
    apply elem_of_map_to_list in Hp. simpl in *. by rewrite Hm.
  - destruct (ts !! a) as [m|] eqn:Em; simpl; [|done]. intros Hp.
    exists (a, m). split.
    + apply list_elem_of_fmap. exists (p, x). split; [done|].
      rewrite (priorities_iterated m). by apply elem_of_map_to_list.
    + rewrite (transports_iterated ts). by apply elem_of_map_to_list.
Qed.

Lemma NoDup_met ts : NoDup (met ts).
Proof.
  unfold TransportRegistry.met. apply NoDup_bind.
  - intros [a1 m1] [a2 m2] [[a p] x] H1 H2 Hy1 Hy2.
    rewrite (transports_iterated ts) in H1, H2.
    apply elem_of_map_to_list in H1, H2.
    apply list_elem_of_fmap in Hy1 as ([p1 x1] & [= -> -> ->] & _).
    apply list_elem_of_fmap in Hy2 as ([p2 x2] & [= -> _ _] & _).
    simpl in *. congruence.
  - intros [a m] _. apply NoDup_fmap_2_strong.
    + intros [p1 x1] [p2 x2] _ _. simpl. congruence.
    + rewrite (priorities_iterated m). apply NoDup_map_to_list.
  - rewrite (transports_iterated ts). apply NoDup_map_to_list.
Qed.

Lemma met_stored r : met (transports r) ≡ₚ map_to_list (stored r).
Proof.
  apply NoDup_Permutation; [apply NoDup_met|apply NoDup_map_to_list|].
  intros [[a p] x]. rewrite elem_of_met, elem_of_map_to_list. done.
Qed.

Lemma elem_of_met_get r a p x :
  (a, p, x) ∈ met (transports r) ↔ get a p r = Some x.
Proof. rewrite get_stored. apply elem_of_met. Qed.

Lemma elem_of_met_values r x :
  x ∈ (met (transports r)).*2 ↔ ∃ a p, get a p r = Some x.
Proof.
  rewrite list_elem_of_fmap. split.
  - intros ([[a p] y] & -> & Hin). exists a, p. by apply elem_of_met_get.
  - intros (a & p & Hg). exists (a, p, x). split; [done|].
    by apply elem_of_met_get.
Qed.

Lemma NoDup_met_values r : keyed r → NoDup (met (transports r)).*2.
Proof.
  intros Hk. apply NoDup_fmap_2_strong; [|apply NoDup_met].
  intros [[a1 p1] x1] [[a2 p2] x2] H1 H2. simpl. intros <-.
  apply elem_of_met_get in H1, H2.
  destruct (Hk _ _ _ H1) as [<- <-]. by destruct (Hk _ _ _ H2) as [<- <-].
Qed.

Lemma toArray_consistent r :
  consistent r →
  toArray r = if transportCount r =? 0 then NullArray
              else Array (Some <$> (met (transports r)).*2).
Proof.
  intros [Hc _]. unfold TransportRegistry.toArray, numberOfActiveTransports in *.
  destruct (Z.eqb_spec (transportCount r) 0) as [|Hn]; [done|].
  destruct (Z.ltb_spec (transportCount r) 0) as [|_]; [lia|].
  rewrite <- met_values.
  replace (Z.to_nat (transportCount r)) with (length (met (transports r)).*2).
  - by rewrite fill_exact.
  - rewrite length_fmap, met_stored, length_map_to_list. lia.
Qed.

(** X19.  On a registry built by [put], [remove] and [clear], and whatever
    the order in which the maps are iterated, [toArray()] returns a null
    pointer exactly when no transport is stored; otherwise it returns,
    without [at] ever throwing, a vector of [numberOfActiveTransports()]
    entries that has no null entry and holds every stored transport
    exactly once. *)
Theorem toArray_holds_every_transport_once (ops : list (Op (AddrKey := AddrKey))) :
  (toArray (run ops) = NullArray ↔ ∀ a p, get a p (run ops) = None)
  ∧ toArray (run ops) ≠ ArrayThrown
  ∧ ∀ v, toArray (run ops) = Array v →
      Z.of_nat (length v) = numberOfActiveTransports (run ops)
      ∧ NoDup v
      ∧ ∀ x, x ∈ v
             ↔ ∃ tr, x = Some tr
                     ∧ get (getRemoteAddress tr) (getPriority tr) (run ops) = Some tr.
Proof.
  pose proof (consistent_foldl ops create consistent_create) as Hcons.
  pose proof (keyed_foldl ops create keyed_create) as Hk.
  fold (run ops) in Hcons, Hk.
  rewrite (toArray_consistent _ Hcons). destruct Hcons as [Hc _].
  unfold numberOfActiveTransports in *.
  assert (Hempty : transportCount (run ops) = 0 ↔ ∀ a p, get a p (run ops) = None).
  { rewrite Hc. split.
    - intros Hs a p. rewrite get_stored.
      assert (stored (run ops) = ∅) as -> by (apply map_size_empty_inv; lia).
      apply lookup_empty.
    - intros Hn. assert (stored (run ops) = ∅) as ->; [|by rewrite map_size_empty].
      apply map_empty. intros [a p]. rewrite <- get_stored. apply Hn. }
  destruct (Z.eqb_spec (transportCount (run ops)) 0) as [E|N].
  - split; [|done]. split; [intros _; by apply Hempty|done].
  - split; [|split; [done|]].
    { split; [done|]. intros Hn. by apply Hempty in Hn. }
    intros v [= <-]. split; [|split].
    + rewrite !length_fmap, met_stored, length_map_to_list. lia.
    + apply (NoDup_fmap_2 Some). by apply NoDup_met_values.
    + intros x. rewrite list_elem_of_fmap. split.
      * intros (tr & -> & Hin). exists tr. split; [done|].
        apply elem_of_met_values in Hin as (a & p & Hg).
        by destruct (Hk _ _ _ Hg) as [<- <-].
      * intros (tr & -> & Hg). exists tr. split; [done|].
        apply elem_of_met_values. eauto.
Qed.

(** X20.  On a registry built by [put], [remove] and [clear], and whatever
    the order in which a priority map is iterated, [get(type, address)]
    returns a null pointer exactly when no transport is stored for the
    address; otherwise it returns a vector that is never empty, has no
    null entry and holds the transports of all priorities of that address,
    each exactly once. *)
Theorem get_all_holds_the_transports_of_an_address
    (ops : list (Op (AddrKey := AddrKey))) (a : AddrKey) :
  (get_all a (run ops) = NullArray ↔ ∀ p, get a p (run ops) = None)
  ∧ get_all a (run ops) ≠ ArrayThrown
  ∧ ∀ v, get_all a (run ops) = Array v →
      v ≠ [] ∧ NoDup v
      ∧ ∀ x, x ∈ v ↔ ∃ tr p, x = Some tr ∧ get a p (run ops) = Some tr.
Proof.
  destruct (consistent_foldl ops create consistent_create) as [_ Hne].
  pose proof (keyed_foldl ops create keyed_create) as Hk.
  fold (run ops) in Hne, Hk. unfold keyed in Hk.
  unfold TransportRegistry.get_all, get in *.
  destruct (transports (run ops) !! a) as [m|] eqn:Em.
  2:{ split; [done|]. split; [done|]. intros v [=]. }
  replace (size m) with (length (prioritiesIteration m).*2)
    by (by rewrite length_fmap, (priorities_iterated m), length_map_to_list).
  rewrite fill_exact.
  split; [|split; [done|]].
  { split; [done|]. intros Hn. destruct (map_choose m (Hne _ _ Em)) as (p & x & Hp).
    by rewrite Hn in Hp. }
  intros v [= <-]. split; [|split].
  - intros Hv. apply fmap_nil_inv, fmap_nil_inv in Hv.
    pose proof (priorities_iterated m) as Hperm. rewrite Hv in Hperm.
    apply Permutation_nil in Hperm. apply map_to_list_empty_iff in Hperm.
    by apply (Hne _ _ Em).
  - apply (NoDup_fmap_2 Some). apply NoDup_fmap_2_strong.
    + intros [p1 x1] [p2 x2] H1 H2. simpl. intros <-.
      rewrite (priorities_iterated m) in H1, H2.
      apply elem_of_map_to_list in H1, H2.
      pose proof (Hk a p1 x1) as K1. pose proof (Hk a p2 x1) as K2.
      rewrite Em in K1, K2. destruct (K1 H1) as [_ <-]. by destruct (K2 H2) as [_ <-].
    + rewrite (priorities_iterated m). apply NoDup_map_to_list.
  - intros x. rewrite list_elem_of_fmap. split.
    + intros (tr & -> & Hin). apply list_elem_of_fmap in Hin as ([p y] & -> & Hin).
      rewrite (priorities_iterated m) in Hin.
      apply elem_of_map_to_list in Hin. by exists y, p.
    + intros (tr & p & -> & Hp). exists tr. split; [done|].
      apply list_elem_of_fmap. exists (p, tr). split; [done|].
      rewrite (priorities_iterated m). by apply elem_of_map_to_list.
Qed.

End Vectors.

End Facts.
End RegistryViews.

(** ** The beacon emitter from its construction on *)

Module BeaconConstruction.
Import FloatEmitter.

Lemma fmax_spec (a b : float) :
  (fmax a b = a ∨ fmax a b = b)
  ∧ (a ≠ NaN → b ≠ NaN → fle a (fmax a b) = true ∧ fle b (fmax a b) = true).
Proof.
  unfold fmax.
  destruct a as [| |x|], b as [| |y|]; cbn [flt fle];
    try (split; [auto|intros Ha Hb; try done; split;
                      by rewrite ?bool_decide_eq_true]).
  case_bool_decide as Hlt; (split; [auto|]); intros _ _; cbn [fle];
    rewrite !bool_decide_eq_true.
  - split; [by apply Qclt_le_weak|apply Qcle_refl].
  - split; [apply Qcle_refl|by apply Qcnot_lt_le].
Qed.

Lemma fmax_NaN (b : float) : fmax NaN b = NaN.
Proof. done. Qed.

Lemma fmax_not_NaN (a b : float) : a ≠ NaN → b ≠ NaN → fmax a b ≠ NaN.
Proof. intros Ha Hb. destruct (fmax_spec a b) as ([-> | ->] & _); done. Qed.

Lemma fle_trans (a b c : float) :
  fle a b = true → fle b c = true → fle a c = true.
Proof.
  destruct a as [| |x|], b as [| |y|], c as [| |z|]; cbn [fle]; try done.
  rewrite !bool_decide_eq_true. apply Qcle_trans.
Qed.

Lemma fle_flt (a b c : float) :
  flt a b = true → fle b c = true → flt a c = true.
Proof.
  destruct a as [| |x|], b as [| |y|], c as [| |z|]; cbn [fle flt]; try done.
  rewrite !bool_decide_eq_true. apply Qclt_le_trans.
Qed.

(** [BeaconEmitter], with rational periods, is this emitter at finite
    periods. *)
Lemma send_of_rational (e : BeaconEmitter.t) :
  send (of_rational e) = of_rational (BeaconEmitter.send e).
Proof.
  unfold send, BeaconEmitter.send, reschedule, BeaconEmitter.reschedule, of_rational.
  cbn [beaconSequenceID beaconCountLimit slowBeaconPeriod fastBeaconPeriod
       BeaconEmitter.beaconSequenceID BeaconEmitter.beaconCountLimit
       BeaconEmitter.slowBeaconPeriod BeaconEmitter.fastBeaconPeriod].
  destruct (_ >=? _); cbn [flt]; case_bool_decide; case_decide; try done;
    unfold scheduleAfterDelay, BeaconEmitter.scheduleAfterDelay; cbn;
    by rewrite fmap_app.
Qed.

Lemma beacons_of_rational (n : nat) (e : BeaconEmitter.t) :
  beacons n (of_rational e) = of_rational (BeaconEmitter.beacons n e).
Proof.
  induction n as [|n IH]; [done|].
  cbn [beacons BeaconEmitter.beacons]. by rewrite IH, send_of_rational.
Qed.

Lemma float_send_params e :
  fastBeaconPeriod (send e) = fastBeaconPeriod e
  ∧ slowBeaconPeriod (send e) = slowBeaconPeriod e
  ∧ beaconCountLimit (send e) = beaconCountLimit e
  ∧ beaconSequenceID (send e) = to_int16 (beaconSequenceID e + 1).
Proof.
  unfold send, reschedule.
  cbn [beaconSequenceID beaconCountLimit slowBeaconPeriod fastBeaconPeriod].
  by destruct (_ >=? _), (flt _ _).
Qed.

Lemma float_beacons_params n e :
  fastBeaconPeriod (beacons n e) = fastBeaconPeriod e
  ∧ slowBeaconPeriod (beacons n e) = slowBeaconPeriod e
  ∧ beaconCountLimit (beacons n e) = beaconCountLimit e.
Proof.
  induction n as [|n (IHf & IHs & IHl)]; [done|].
  cbn [beacons]. destruct (float_send_params (beacons n e)) as (-> & -> & -> & _).
  done.
Qed.

Lemma float_beacons_sequenceID n e :
  beaconSequenceID (beacons n e) = to_int16 (beaconSequenceID e + Z.of_nat n)
  ∨ n = 0%nat.
Proof.
  induction n as [|n IH]; [by right|]. left.
  cbn [beacons]. destruct (float_send_params (beacons n e)) as (_ & _ & _ & ->).
  destruct IH as [-> | ->].
  - rewrite to_int16_idemp_add. f_equal. lia.
  - cbn [beacons]. f_equal.
Qed.

(** One [send] of an emitter whose periods are above zero asks the timer
    once, for one of the two periods. *)
Lemma float_send_scheduled e :
  flt (Finite (Q2Qc 0)) (fastBeaconPeriod e) = true →
  flt (Finite (Q2Qc 0)) (slowBeaconPeriod e) = true →
  ∃ d, scheduled (send e) = scheduled e ++ [d]
       ∧ (d = fastBeaconPeriod e ∨ d = slowBeaconPeriod e).
Proof.
  intros Hf Hs. unfold send, reschedule.
  cbn [beaconSequenceID beaconCountLimit slowBeaconPeriod fastBeaconPeriod].
  destruct (_ >=? _).
  - rewrite Hs. eexists. split; [reflexivity|by right].
  - rewrite Hf. eexists. split; [reflexivity|by left].
Qed.

Lemma float_beacons_scheduled n e :
  flt (Finite (Q2Qc 0)) (fastBeaconPeriod e) = true →
  flt (Finite (Q2Qc 0)) (slowBeaconPeriod e) = true →
  ∃ ds, scheduled (beacons n e) = scheduled e ++ ds
        ∧ length ds = n
        ∧ Forall (λ d, d = fastBeaconPeriod e ∨ d = slowBeaconPeriod e) ds.
Proof.
  intros Hf Hs. induction n as [|n (ds & Hds & Hl & Hall)].
  - exists []. by rewrite app_nil_r.
  - cbn [beacons].
    destruct (float_beacons_params n e) as (Ef & Es & _).
    destruct (float_send_scheduled (beacons n e)) as (d & Hd & Hor);
      [by rewrite Ef|by rewrite Es|].
    rewrite Ef, Es in Hor.
    exists (ds ++ [d]). rewrite Hd, Hds, <- app_assoc.
    split; [done|]. split; [rewrite length_app; cbn [length]; lia|].
    apply Forall_app. split; [done|]. by constructor.
Qed.

(** A [send] that leaves the sequence id below the limit of an emitter
    whose fast period is NaN asks the timer for nothing. *)
Lemma send_NaN e :
  fastBeaconPeriod e = NaN →
  to_int16 (beaconSequenceID e + 1) < beaconCountLimit e →
  scheduled (send e) = scheduled e.
Proof.
  intros Hf Hlt. unfold send, reschedule.
  cbn [beaconSequenceID beaconCountLimit slowBeaconPeriod fastBeaconPeriod].
  destruct (Z.geb_spec (to_int16 (beaconSequenceID e + 1)) (beaconCountLimit e));
    [lia|].
  by rewrite Hf.
Qed.

(** X21.  The constructor that reads the context clamps the period it is
    configured with, unless that is NaN.  The fast period is the
    configured one or EPICS_CA_MIN_BEACON_PERIOD = 1, the slow period is
    180 or the fast period, the count limit is 10, the sequence id starts
    at 0 and nothing is scheduled.  For a configured period other than NaN,
    infinite ones included, the fast period is at least 1 and at least the
    configured one, and the slow period is at least 180 and at least the
    fast one.  For NaN [std::max] hands the NaN on: the fast period is NaN
    and the slow period is 180. *)
Theorem create_clamps_every_period_but_NaN (beaconPeriod : float) :
  let e := create beaconPeriod in
  beaconCountLimit e = 10
  ∧ beaconSequenceID e = 0
  ∧ scheduled e = []
  ∧ (fastBeaconPeriod e = beaconPeriod ∨ fastBeaconPeriod e = Finite (Q2Qc 1))
  ∧ (slowBeaconPeriod e = Finite (Q2Qc 180)
     ∨ slowBeaconPeriod e = fastBeaconPeriod e)
  ∧ (beaconPeriod ≠ NaN →
       fle (Finite (Q2Qc 1)) (fastBeaconPeriod e) = true
       ∧ fle beaconPeriod (fastBeaconPeriod e) = true
       ∧ fle (Finite (Q2Qc 180)) (slowBeaconPeriod e) = true
       ∧ fle (fastBeaconPeriod e) (slowBeaconPeriod e) = true)
  ∧ (beaconPeriod = NaN →
       fastBeaconPeriod e = NaN ∧ slowBeaconPeriod e = Finite (Q2Qc 180)).
Proof.
  intros e. subst e. unfold create.
  cbn [fastBeaconPeriod slowBeaconPeriod beaconCountLimit beaconSequenceID
       scheduled].
  destruct (fmax_spec beaconPeriod EPICS_CA_MIN_BEACON_PERIOD) as (Hor & Hle).
  destruct (fmax_spec (Finite (Q2Qc 180)) (fmax beaconPeriod EPICS_CA_MIN_BEACON_PERIOD))
    as (Hor' & Hle').
  split; [by vm_compute|]. split; [done|]. split; [done|].
  split; [exact Hor|]. split; [exact Hor'|]. split.
  - intros Hn. destruct (Hle Hn) as (Hp & H1); [done|].
    destruct Hle' as (H180 & Hf); [done|by apply fmax_not_NaN|].
    done.
  - intros ->. by rewrite fmax_NaN.
Qed.

(** X22.  An emitter built from a configured period other than NaN asks
    the timer again with every beacon: after [start()] and any number of
    beacons the timer has been asked exactly once per beacon plus once by
    [start()], the first request with delay 0 and every later one with a
    delay of at least one second, so that the guard [period > 0] of
    [reschedule] never fails.  Built from NaN the emitter stops with its
    first beacon: none of the first nine calls of [send] asks the timer
    for anything, so the request of [start()] stays the only one.  The
    constructor that takes the server address yields what the other
    yields for a configured period of 1, and what
    [BeaconEmitter.create_addr] has with rational periods. *)
Theorem emitter_reschedules_unless_configured_with_NaN (beaconPeriod : float) (n : nat) :
  let e := beacons n (start (create beaconPeriod)) in
  (beaconPeriod ≠ NaN →
     length (scheduled e) = S n
     ∧ scheduled e !! 0%nat = Some (Finite (Q2Qc 0))
     ∧ (∀ i d, (1 ≤ i)%nat → scheduled e !! i = Some d →
          fle (Finite (Q2Qc 1)) d = true))
  ∧ (beaconPeriod = NaN → (n < 10)%nat → scheduled e = [Finite (Q2Qc 0)])
  ∧ create_addr = create (Finite (Q2Qc 1))
  ∧ create_addr = of_rational BeaconEmitter.create_addr.
Proof.
  intros e. subst e. split; [|split; [|split]].
  - intros Hn.
    destruct (fmax_spec beaconPeriod EPICS_CA_MIN_BEACON_PERIOD) as (_ & Hle).
    destruct (Hle Hn) as (_ & H1); [done|].
    destruct (fmax_spec (Finite (Q2Qc 180)) (fmax beaconPeriod EPICS_CA_MIN_BEACON_PERIOD))
      as (_ & Hle').
    destruct Hle' as (H180 & _); [done|by apply fmax_not_NaN|].
    assert (H1' : fle (Finite (Q2Qc 1))
                    (fmax (Finite (Q2Qc 180)) (fmax beaconPeriod EPICS_CA_MIN_BEACON_PERIOD))
                  = true)
      by (eapply fle_trans; [|exact H180]; done).
    destruct (float_beacons_scheduled n (start (create beaconPeriod)))
      as (ds & -> & Hl & Hall).
    { cbn [start scheduleAfterDelay create fastBeaconPeriod].
      eapply fle_flt; [|exact H1]. done. }
    { cbn [start scheduleAfterDelay create slowBeaconPeriod].
      eapply fle_flt; [|exact H1']. done. }
    cbn [start scheduleAfterDelay create scheduled fastBeaconPeriod
         slowBeaconPeriod app] in *.
    split; [cbn [length]; lia|]. split; [done|].
    intros i d Hi. destruct i as [|i]; [lia|]. rewrite lookup_cons.
    intros Hd. apply list_elem_of_lookup_2 in Hd.
    rewrite Forall_forall in Hall. by destruct (Hall d Hd) as [-> | ->].
  - intros -> Hlt. induction n as [|n IH]; [done|].
    cbn [beacons]. rewrite send_NaN; [apply IH; lia| |].
    + by destruct (float_beacons_params n (start (create NaN))) as (-> & _).
    + destruct (float_beacons_params n (start (create NaN))) as (_ & _ & ->).
      destruct (float_beacons_sequenceID n (start (create NaN))) as [-> | ->].
      * change (beaconSequenceID (start (create NaN))) with 0.
        change (beaconCountLimit (start (create NaN))) with 10.
        rewrite Z.add_0_l, to_int16_idemp_add, to_int16_small by lia. lia.
      * by vm_compute.
  - by vm_compute.
  - by vm_compute.
Qed.

End BeaconConstruction.

(** ** The beacon emitter over its lifetime *)

Module BeaconLifetime.
Import BeaconEmitter BeaconFacts.

Lemma choice_wraps e k : choice e (k + Z.to_nat 65536) = choice e k.
Proof.
  unfold choice. replace (to_int16 (beaconSequenceID e + Z.of_nat (k + Z.to_nat 65536)))
    with (to_int16 (beaconSequenceID e + Z.of_nat k)); [done|].
  rewrite Nat2Z.inj_add, Z2Nat.id by lia. wrap_lia.
Qed.

(** X23.  The sequence id is 16 bits wide and [reschedule] compares it,
    signed, with the count limit: the cadence repeats with every 65536
    beacons, and for an emitter started at id 0 with a limit that is not
    negative the beacons from the 32768-th to the 65535-th, whose id has
    wrapped to a negative value, are again followed by the fast period. *)
Theorem cadence_repeats_after_the_sequence_id_wraps (e : t) (k : nat) :
  positive_periods e → (1 ≤ k)%nat →
  decision (k + Z.to_nat 65536) e = decision k e
  ∧ beaconSequenceID (beacons (k + Z.to_nat 65536) e) = beaconSequenceID (beacons k e)
  ∧ (beaconSequenceID e = 0 → 0 <= beaconCountLimit e →
     32768 <= Z.of_nat k <= 65535 →
     decision k e = Some (fastBeaconPeriod e)).
Proof.
  intros Hp Hk. rewrite !decision_choice by (done || lia).
  split; [|split].
  - by rewrite choice_wraps.
  - destruct k as [|k]; [lia|].
    change (S k + Z.to_nat 65536)%nat with (S (k + Z.to_nat 65536)).
    rewrite !beacons_sequenceID.
    rewrite !Nat2Z.inj_succ, Nat2Z.inj_add, Z2Nat.id by lia. wrap_lia.
  - intros Hs Hl Hr. unfold choice. rewrite Hs, Z.add_0_l.
    replace (to_int16 (Z.of_nat k)) with (Z.of_nat k - 65536) by wrap_lia.
    destruct (Z.geb_spec (Z.of_nat k - 65536) (beaconCountLimit e)); [lia|done].
Qed.

End BeaconLifetime.

(** * The theorems at concrete inputs *)

Section Instances.

Import ByteBuffer Sample.

Lemma underreading_reads_only : reads_only underreading.
Proof. intros from v c n t. eexists. split; [reflexivity|]. by split. Qed.


(** A validation frame, of whose ten payload bytes the handler reads
    eight, followed by an echo frame, handed to the server's dispatcher. *)
Lemma cursor_repositioned_after_each_frame_witness :
  let t := holding (datagram [validation_frame; echo_frame]) in
  processBuffer server 3 peer t
  = frames_in_turn server peer [validation_frame; echo_frame] t
  ∧ ∃ e tf n,
      processBuffer server 3 peer t
      = (e, tf,
         take n (frame_calls peer (arr (receiveBuffer t)) 26 0
                   [validation_frame; echo_frame]))
      ∧ ((e = Returned true ∧ n = 2%nat ∧ position (receiveBuffer tf) = 26)
         ∨ (e = Raised ∧ (1 ≤ n ≤ 2)%nat
            ∧ ∃ c s,
                frame_calls peer (arr (receiveBuffer t)) 26 0
                  [validation_frame; echo_frame] !! (n - 1)%nat = Some c
                ∧ receiveBuffer s = c_buffer c
                ∧ server peer (c_version c) (c_command c) (c_payloadSize c) s
                  = Thrown tf)).
Proof.
  intros t.
  apply (cursor_repositioned_after_each_frame server
           [validation_frame; echo_frame] peer t
           (replicate 38 0)
           (server_keeps_bytes version false sendto_all false)).
  - repeat constructor; by vm_compute.
  - by vm_compute.
  - reflexivity.
  - reflexivity.
  - by vm_compute.
Defined.

Lemma header_round_trip_witness :
  let sb' := sendBuffer (endMessage (writePayload payload_writes
               (startMessage version false 2 0 idle))) in
  getPosition sb' - 0 - CA_MESSAGE_HEADER_SIZE = 6
  ∧ slice (arr sb') 4 4 = [6; 0; 0; 0]
  ∧ (processBuffer underreading 1 peer (holding (take 14 (arr sb')))).2 !! 0%nat
    = Some (mkCall peer version 2 6
              (mk (arr (receiveBuffer (holding (take 14 (arr sb'))))) 8 14 false)).
Proof.
  intros sb'.
  destruct (header_round_trip version false 2 0 payload_writes idle
              ltac:(by vm_compute) ltac:(by vm_compute) eq_refl ltac:(by vm_compute))
    as (Hlen & _ & Hpatch & _ & Hdecode).
  split; [exact Hlen|]. split; [exact Hpatch|].
  exact (Hdecode underreading 0%nat peer (holding (take 14 (arr sb'))) (replicate 50 0)
           ltac:(by vm_compute) eq_refl eq_refl ltac:(by vm_compute)).
Defined.

(** The connection-validation scenario: R = 0x00010000, S = 0x00020000 and
    priority 1, little-endian, behind an 8-byte header. *)
Lemma connection_validation_sets_peer_parameters_witness :
  let t := with_receiveBuffer
             (setPosition (receiveBuffer (holding (frame_bytes validation_frame))) 8)
             idle in
  let o := ConnectionValidationHandler_handleResponse false peer version 1 10 t in
  remoteTransportReceiveBufferSize (outcome_state o) = 65536
  ∧ remoteTransportSocketReceiveBufferSize (outcome_state o) = 131072
  ∧ remoteMinorRevision (outcome_state o) = version
  ∧ position (receiveBuffer (outcome_state o)) = 16.
Proof.
  intros t o.
  destruct (connection_validation_sets_peer_parameters false peer version 1 10 t
              65536 131072 1 (replicate 46 0)
              ltac:(by vm_compute) ltac:(by vm_compute) eq_refl
              ltac:(by vm_compute) ltac:(by vm_compute))
    as (Hrun & HR & HS & Hv).
  subst o. rewrite Hrun. cbn [outcome_state]. by repeat split.
Defined.

Lemma echo_frame_is_answered_once_witness :
  wire (outcome_state (server peer version CMD_ECHO 0 idle))
  = [(peer, [202; 80; 0; 2; 0; 0; 0; 0])].
Proof.
  destruct (echo_frame_is_answered_once version false sendto_all false peer version 0
              idle ltac:(vm_compute; lia)) as (Hrun & _ & Hwire & _).
  unfold server. rewrite Hrun. cbn [outcome_state]. exact Hwire.
Defined.

Lemma negative_length_never_returns_witness :
  ∃ tf, processBuffer underreading 5 peer (holding negative_length)
        = (Unfinished, tf,
           replicate 5
             (mkCall peer version 2 (-8)
                (mk (arr (receiveBuffer (holding negative_length))) 8 8 false))).
Proof.
  exact (negative_length_never_returns underreading peer (holding negative_length)
           version 0 2 (replicate 56 0) 5 underreading_reads_only
           ltac:(by vm_compute) ltac:(by vm_compute) ltac:(by vm_compute)
           ltac:(by vm_compute) ltac:(by vm_compute) eq_refl ltac:(by vm_compute)).
Defined.

(** *** The scenarios of the specification, run on the model *)

(** Two echo frames in one datagram: two echo replies go out. *)
Example two_frames_two_replies :
  wire (processRead_iteration server 3
          (mkRecv 16 peer (datagram [echo_frame; echo_frame]) SOCK_EINTR) idle).1.2
  = [(peer, [202; 80; 0; 2; 0; 0; 0; 0]); (peer, [202; 80; 0; 2; 0; 0; 0; 0])].
Proof. by vm_compute. Qed.

(** Bad magic: nothing is called and the loop goes on. *)
Example bad_magic_is_dropped :
  (λ r, (r.1.1, r.2, wire r.1.2, errlog r.1.2))
    (processRead_iteration server 3 (mkRecv 8 peer bad_magic SOCK_EINTR) idle)
  = (Continue, [], [], []).
Proof. by vm_compute. Qed.

(** Command 99: a minor-severity entry, no reply, no other change. *)
Example unknown_command_is_logged :
  server peer version 99 0 idle
  = Ok (with_errlog (invalid_command_log 99 0 idle) idle).
Proof. reflexivity. Qed.

(** A validation frame and an echo frame in one datagram: the second is
    dispatched from its own start at offset 18, although the validation
    handler has read only eight of the ten payload bytes before it. *)
Example underread_does_not_desynchronize :
  (λ c, (c_command c, c_payloadSize c, position (c_buffer c)))
    <$> (processBuffer server 3 peer
           (holding (datagram [validation_frame; echo_frame]))).2
  = [(1, 10, 8); (2, 0, 26)].
Proof. by vm_compute. Qed.

(** Connection validation inside a datagram, through the dispatcher. *)
Example validation_frame_sets_sizes :
  (λ t, (remoteTransportReceiveBufferSize t,
         remoteTransportSocketReceiveBufferSize t, remoteMinorRevision t))
    (processBuffer server 2 peer (holding (frame_bytes validation_frame))).1.2
  = (65536, 131072, 80).
Proof. by vm_compute. Qed.

End Instances.

Section BeaconInstances.

Import BeaconEmitter BeaconFacts.

Lemma create_addr_positive : positive_periods create_addr.
Proof. by split. Qed.

(** With limit 10 the ninth beacon still asks for the fast period and the
    tenth for the slow one. *)
Lemma beacon_cadence_witness :
  decision 9 create_addr = Some (fastBeaconPeriod create_addr)
  ∧ decision 10 create_addr = Some (slowBeaconPeriod create_addr)
  ∧ scheduled (beacons 10 (start create_addr)) !! 10%nat
    = Some (slowBeaconPeriod create_addr).
Proof.
  destruct (beacon_cadence create_addr 9 eq_refl create_addr_positive ltac:(lia))
    as (Hfast & _).
  destruct (beacon_cadence create_addr 10 eq_refl create_addr_positive ltac:(lia))
    as (_ & Hslow & _ & Hnum).
  split; [apply Hfast; simpl; lia|].
  split; [apply Hslow; simpl; lia|].
  rewrite <- Hslow by (simpl; lia). exact Hnum.
Defined.

(** C3 as stated fails on the code: the tenth of the first
    [beaconCountLimit] = 10 beacons is already followed by the slow period,
    and beacon 65536, long after the tenth, is followed by the fast period
    again because the 16-bit sequence id has wrapped to 0. *)
Lemma beacon_cadence_as_stated_fails :
  decision 10 create_addr ≠ Some (fastBeaconPeriod create_addr)
  ∧ decision (Z.to_nat 65536) create_addr ≠ Some (slowBeaconPeriod create_addr).
Proof.
  split.
  - vm_compute. intros [=].
  - rewrite decision_choice; [|apply create_addr_positive|lia].
    vm_compute. intros [=].
Qed.

(** Beacon cadence with fast period 1 s, slow period 180 s and limit 10,
    after [start()]: nine fast decisions, then slow ones. *)
Example cadence_after_start :
  scheduled (beacons 11 (start create_addr))
  = [Q2Qc 0] ++ replicate 9 (Q2Qc 1) ++ [Q2Qc 180; Q2Qc 180].
Proof. by vm_compute. Qed.

End BeaconInstances.

Section RegistryInstances.

Import TransportRegistry.

(** put(t1 at (A,0)), put(t2 at (A,1)), remove(t1): one transport is
    left, and it is t2. *)
Example registry_scenario :
  let t1 := mkTransport 1 0 7%Z in
  let t2 := mkTransport 2 1 7%Z in
  let r := run [Put t1; Put t2; Remove t1] in
  numberOfActiveTransports r = 1 ∧ get 7 1 r = Some t2 ∧ get 7 0 r = None.
Proof. by vm_compute. Qed.

End RegistryInstances.

(** * The further properties at concrete inputs *)

Section MoreInstances.

Import ByteBuffer Sample Scenario.


(** One beacon and the same beacon 65536 beacons later are followed by
    the same period, and beacon 40000 is followed by the fast one. *)
Lemma cadence_repeats_after_the_sequence_id_wraps_witness :
  BeaconEmitter.decision (1 + Z.to_nat 65536) BeaconEmitter.create_addr
  = BeaconEmitter.decision 1 BeaconEmitter.create_addr
  ∧ BeaconEmitter.decision (Z.to_nat 40000) BeaconEmitter.create_addr
    = Some (BeaconEmitter.fastBeaconPeriod BeaconEmitter.create_addr).
Proof.
  destruct (BeaconLifetime.cadence_repeats_after_the_sequence_id_wraps
              BeaconEmitter.create_addr 1 create_addr_positive ltac:(lia))
    as (Hrepeat & _).
  destruct (BeaconLifetime.cadence_repeats_after_the_sequence_id_wraps
              BeaconEmitter.create_addr (Z.to_nat 40000) create_addr_positive
              ltac:(lia))
    as (_ & _ & Hfast).
  split; [exact Hrepeat|].
  exact (Hfast eq_refl ltac:(by vm_compute) ltac:(lia)).
Defined.

(** A beacon-like message of command 0 goes to both send addresses,
    although the transport was left with a recipient of its own. *)
Lemma broadcast_goes_to_every_send_address_witness :
  wire (enqueueSendRequest sendto_all
          (message_sender version false 0 0 payload_writes) broadcasting)
  = [(peer, [202; 80; 0; 0; 6; 0; 0; 0; 7; 0; 5; 0; 0; 0]);
     (peer2, [202; 80; 0; 0; 6; 0; 0; 0; 7; 0; 5; 0; 0; 0])].
Proof.
  exact (proj1 (broadcast_goes_to_every_send_address version false sendto_all
                  0 0 payload_writes broadcasting
                  ltac:(by vm_compute) eq_refl)).
Defined.

(** Two messages before [endMessage]: six payload bytes behind the first
    header, whose length field stays 0, and one behind the second. *)
Lemma only_the_last_message_gets_its_length_witness :
  take 23 (arr (sendBuffer (endMessage
    (writePayload [PutByte 9] (startMessage version false 2 0
      (writePayload payload_writes (startMessage version false 1 0 idle)))))))
  = [202; 80; 0; 1; 0; 0; 0; 0; 7; 0; 5; 0; 0; 0;
     202; 80; 0; 2; 1; 0; 0; 0; 9].
Proof.
  rewrite (only_the_last_message_gets_its_length version false 1 0 2 0
             payload_writes [PutByte 9] idle
             ltac:(by vm_compute) ltac:(by vm_compute)).
  reflexivity.
Defined.

Lemma transient_errors_do_not_close_witness :
  processRead underreading 1 [timed_out; nothing_read; timed_out] idle
  = (InRecvfrom, listening idle, []).
Proof.
  apply (transient_errors_do_not_close underreading 1
           [timed_out; nothing_read; timed_out] idle eq_refl).
  repeat constructor; by vm_compute.
Defined.

Lemma fatal_socket_error_ends_the_thread_witness :
  processRead underreading 1 ([timed_out] ++ broken :: [datagram5]) idle
  = (ThreadExited,
     with_errlog (errlog idle ++ [recvfrom_error; socket_closed; thread_exiting])
       (with_closed true (listening idle)),
     []).
Proof.
  apply (fatal_socket_error_ends_the_thread underreading 1 [timed_out] [datagram5]
           broken 9 idle eq_refl); [|reflexivity|reflexivity].
  repeat constructor; by vm_compute.
Defined.



(** The header with length -8: two iterations are one more than fit into
    its eight bytes, and the run has not returned; two echo frames are
    done with in three. *)
Lemma processBuffer_returns_unless_a_length_is_negative_witness :
  Exists (λ c, c_payloadSize c < 0)
    (processBuffer underreading 2 peer (holding negative_length)).2
  ∧ (processBuffer underreading 3 peer
       (holding (datagram [echo_frame; echo_frame]))).1.1 ≠ Unfinished.
Proof.
  split.
  - apply (processBuffer_returns_unless_a_length_is_negative underreading peer
             (holding negative_length)
             (reads_only_keeps_bytes _ underreading_reads_only)
             ltac:(by vm_compute) ltac:(by vm_compute)).
    reflexivity.
  - apply (processBuffer_returns_unless_a_length_is_negative underreading peer
             (holding (datagram [echo_frame; echo_frame]))
             (reads_only_keeps_bytes _ underreading_reads_only)
             ltac:(by vm_compute) ltac:(by vm_compute)).
    repeat constructor; by vm_compute.
Defined.

Lemma unassigned_commands_are_only_logged_witness :
  server peer version 7 0 idle = Ok (log (undecipherable 7 peer) idle).
Proof.
  exact (proj1 (unassigned_commands_are_only_logged version false sendto_all false
                  peer version 7 0 idle ltac:(by vm_compute))).
Defined.

Lemma every_echo_frame_is_answered_witness :
  ∃ tf,
    processBuffer server 3 peer (holding (datagram [echo_frame; echo_frame]))
    = (Returned true, tf,
       frame_calls peer
         (arr (receiveBuffer (holding (datagram [echo_frame; echo_frame]))))
         16 0 [echo_frame; echo_frame])
    ∧ wire tf = [(peer, [202; 80; 0; 2; 0; 0; 0; 0]);
                 (peer, [202; 80; 0; 2; 0; 0; 0; 0])]
    ∧ position (receiveBuffer tf) = 16.
Proof.
  apply (every_echo_frame_is_answered version false sendto_all false
           [echo_frame; echo_frame] peer
           (holding (datagram [echo_frame; echo_frame])) (replicate 48 0)).
  - repeat constructor; by vm_compute.
  - by vm_compute.
  - reflexivity.
  - reflexivity.
  - by vm_compute.
  - vm_compute. lia.
Defined.

Lemma echo_requests_keep_the_thread_running_witness :
  ∃ tf,
    processRead server 3 [two_echoes] idle
    = (InRecvfrom, tf,
       frame_calls peer (arr (received two_echoes idle)) 16 0 [echo_frame; echo_frame])
    ∧ wire tf = [(peer, [202; 80; 0; 2; 0; 0; 0; 0]);
                 (peer, [202; 80; 0; 2; 0; 0; 0; 0])]
    ∧ closed tf = false.
Proof.
  apply (echo_requests_keep_the_thread_running version false sendto_all false
           [echo_frame; echo_frame] two_echoes idle eq_refl eq_refl).
  - repeat constructor; by vm_compute.
  - done.
  - reflexivity.
  - reflexivity.
  - vm_compute. lia.
  - by vm_compute.
  - vm_compute. lia.
Defined.

(** *** Further runs of the model *)

(** The echo reply, received by a server, is answered with itself. *)
Example reply_to_a_reply :
  wire (processBuffer server 2 peer2
          (holding (echo_datagram version false))).1.2
  = [(peer2, echo_datagram version false)].
Proof. by vm_compute. Qed.

(** A failing [sendto] for the first address: the second is still served,
    the result is false and the failure is logged once. *)
Example one_address_fails :
  (λ r, (r.1, wire r.2, errlog r.2))
    (send (λ a _, if sin_addr a =? sin_addr peer then -1 else 0)
       (with_sendBuffer (ByteBuffer.mk [1; 2; 3] 2 3 false) broadcasting))
  = (false, [(peer, [1; 2]); (peer2, [1; 2])], [sendto_error]).
Proof. by vm_compute. Qed.

(** A closed transport is closed only once. *)
Example close_twice :
  errlog (close true true false (close true false true idle)) = [socket_closed]
  ∧ errlog (close true true false idle) = [socket_closed; thread_not_exited].
Proof. by split. Qed.

(** With an ignore list that names the second peer, an echo request of
    the first is answered and one of the second, from whatever port, is
    dropped. *)
Example listed_source_only_is_dropped :
  (λ r, (r.1.1, length r.2, wire r.1.2))
    (processRead_iteration server 2
       (mkRecv 8 peer (frame_bytes echo_frame) SOCK_EINTR) ignoring_peer2)
  = (Continue, 1%nat, [(peer, [202; 80; 0; 2; 0; 0; 0; 0])])
  ∧ (λ r, (r.1.1, length r.2, wire r.1.2))
      (processRead_iteration server 2
         (mkRecv 8 peer2_elsewhere (frame_bytes echo_frame) SOCK_EINTR)
         ignoring_peer2)
    = (Continue, 0%nat, []).
Proof. by vm_compute. Qed.

(** Configured with half a second the emitter beacons every second; with
    an infinite period it asks the timer for an infinite delay; with NaN
    its first beacons ask for nothing. *)
Example periods_from_the_configuration :
  FloatEmitter.scheduled
    (FloatEmitter.beacons 2
       (FloatEmitter.start (FloatEmitter.create (FloatEmitter.Finite (Q2Qc (1 # 2))))))
  = FloatEmitter.Finite <$> [Q2Qc 0; Q2Qc 1; Q2Qc 1]
  ∧ FloatEmitter.scheduled
      (FloatEmitter.beacons 2
         (FloatEmitter.start (FloatEmitter.create FloatEmitter.PosInf)))
    = [FloatEmitter.Finite (Q2Qc 0); FloatEmitter.PosInf; FloatEmitter.PosInf]
  ∧ FloatEmitter.scheduled
      (FloatEmitter.beacons 2
         (FloatEmitter.start (FloatEmitter.create FloatEmitter.NaN)))
    = [FloatEmitter.Finite (Q2Qc 0)].
Proof. by vm_compute. Qed.

End MoreInstances.


Section MoreRegistryInstances.

Import TransportRegistry Scenario.

Lemma ascending_iterates {V : Type} : iterates (ascending (V := V)).
Proof. intros m. apply merge_sort_Permutation. Qed.

(** Three transports at two addresses, the maps iterated by ascending
    key. *)
Lemma toArray_holds_every_transport_once_witness :
  toArray ascending ascending three_transports
  = Array [Some at7_0; Some at7_1; Some at8_0]
  ∧ numberOfActiveTransports three_transports = 3
  ∧ NoDup [Some at7_0; Some at7_1; Some at8_0].
Proof.
  destruct (RegistryViews.toArray_holds_every_transport_once ascending ascending
              ascending_iterates ascending_iterates
              [Put at7_1; Put at8_0; Put at7_0]) as (_ & _ & Hv).
  destruct (Hv [Some at7_0; Some at7_1; Some at8_0] ltac:(by vm_compute))
    as (Hlen & Hnd & _).
  split; [by vm_compute|]. split; [|exact Hnd].
  symmetry. exact Hlen.
Defined.

Lemma get_all_holds_the_transports_of_an_address_witness :
  get_all ascending 7 three_transports = Array [Some at7_0; Some at7_1]
  ∧ NoDup [Some at7_0; Some at7_1]
  ∧ (get_all ascending 9 three_transports = NullArray
     ↔ ∀ p, get 9 p three_transports = None).
Proof.
  destruct (RegistryViews.get_all_holds_the_transports_of_an_address ascending
              ascending_iterates [Put at7_1; Put at8_0; Put at7_0] 7)
    as (_ & _ & Hv).
  destruct (Hv [Some at7_0; Some at7_1] ltac:(by vm_compute)) as (_ & Hnd & _).
  split; [by vm_compute|]. split; [exact Hnd|].
  apply (RegistryViews.get_all_holds_the_transports_of_an_address ascending
           ascending_iterates [Put at7_1; Put at8_0; Put at7_0] 9).
Defined.

(** *** Further runs of the registry *)

(** Replacing the transport of a pair keeps the count, and [remove] of
    another transport with that address and priority takes the stored
    one out. *)
Example replace_and_remove_by_key :
  let other := mkTransport 9 0 7%Z in
  numberOfActiveTransports (put other three_transports) = 3
  ∧ get 7 0 (put other three_transports) = Some other
  ∧ (remove other three_transports).1 = Some at7_0
  ∧ get 7 0 (remove other three_transports).2 = None
  ∧ toArray ascending ascending (run [Put at7_0; Remove at7_0]) = NullArray.
Proof. by vm_compute. Qed.

End MoreRegistryInstances.
